(** * A shallow embedding of the @killiandvcz/rest routing layer

    The development follows the JavaScript sources: [Route], [Middleware],
    [Context], [Request] and [Rest].  JavaScript strings are modelled by
    [string] (code units below 256), numbers by [Z], objects by association
    lists of own properties, and every function that can throw returns a
    [Completion].  Asynchronous functions are modelled by their sequential
    meaning: every [await] in the sources waits for the awaited promise, so a
    rejected promise behaves as a thrown value at the [await]. *)

From Stdlib Require Import ZArith Ascii String Sorted.
From stdpp Require Import gmap strings list.

(** ** String primitives of the host language *)
Module JsString.

Definition is_slash (c : ascii) : bool := Ascii.eqb c "/".
Definition is_star (c : ascii) : bool := Ascii.eqb c "*".
Definition is_colon (c : ascii) : bool := Ascii.eqb c ":".
Definition is_backslash (c : ascii) : bool := Ascii.eqb c "\".

Definition in_range (lo hi : nat) (c : ascii) : bool :=
  (lo <=? nat_of_ascii c)%nat && (nat_of_ascii c <=? hi)%nat.

(** The class [\w] of a regular expression without flags: [A-Za-z0-9_]. *)
Definition is_word (c : ascii) : bool :=
  in_range 65 90 c || in_range 97 122 c || in_range 48 57 c || Ascii.eqb c "_".

(** The line terminators that [.] refuses (U+2028 and U+2029 are beyond
    the code units modelled here). *)
Definition is_line_terminator (c : ascii) : bool :=
  Ascii.eqb c "010" || Ascii.eqb c "013".

(** The characters of the class [[.*+?^${}()|[\]\\]]. *)
Definition is_syntax_char (c : ascii) : bool :=
  existsb (Ascii.eqb c)
    ["."; "*"; "+"; "?"; "^"; "$"; "{"; "}"; "("; ")"; "|"; "["; "]"; "\"]%char.

(** [s.replace(/\/\//g, "/")]: one pass, left to right, over
    non-overlapping occurrences of two slashes. *)
Fixpoint replace_double_slash (s : string) : string :=
  match s with
  | String c (String d r as t) =>
      if is_slash c && is_slash d then String "/" (replace_double_slash r)
      else String c (replace_double_slash t)
  | _ => s
  end.

(** [s.replace(/\/$/, "")]: drops one slash at the very end. *)
Fixpoint strip_trailing_slash (s : string) : string :=
  match s with
  | "" => ""
  | String c r =>
      match r with
      | "" => if is_slash c then "" else s
      | _ => String c (strip_trailing_slash r)
      end
  end.

(** [s.toLowerCase()] on the code units modelled here. *)
Definition lower_char (c : ascii) : ascii :=
  if in_range 65 90 c || in_range 192 214 c || in_range 216 222 c
  then ascii_of_nat (nat_of_ascii c + 32) else c.

Fixpoint toLowerCase (s : string) : string :=
  match s with
  | "" => ""
  | String c r => String (lower_char c) (toLowerCase r)
  end.

(** [hay.includes(needle)] *)
Fixpoint includes (needle hay : string) : bool :=
  String.prefix needle hay
  || match hay with
     | "" => false
     | String _ r => includes needle r
     end.

(** [s.split(sep)] for a one-character separator. *)
Fixpoint split_go (sep : ascii) (cur : string) (s : string) : list string :=
  match s with
  | "" => [String.rev cur]
  | String c r =>
      if Ascii.eqb c sep then String.rev cur :: split_go sep "" r
      else split_go sep (String c cur) r
  end.

Definition split (sep : ascii) (s : string) : list string := split_go sep "" s.

(** [(s.match(/\*/g) || []).length] *)
Fixpoint count_stars (s : string) : nat :=
  match s with
  | "" => 0
  | String c r => (if is_star c then 1 else 0) + count_stars r
  end.

Definition starts_with (p : ascii -> bool) (s : string) : bool :=
  match s with
  | String c _ => p c
  | "" => false
  end.

(** [(s.match(/:[^/]+/g) || []).length]: a match starts at a colon that is
    followed by a character other than a slash and runs up to the next
    slash; [inside] says that the scan is within a match. *)
Fixpoint count_params_go (inside : bool) (s : string) : nat :=
  match s with
  | "" => 0
  | String c r =>
      if inside then count_params_go (negb (is_slash c)) r
      else if is_colon c && starts_with (fun d => negb (is_slash d)) r
           then S (count_params_go true r)
           else count_params_go false r
  end.

Definition count_params (s : string) : nat := count_params_go false s.

End JsString.

(** ** Path normalisation, as written twice in [Rest] *)

(** [getRoutes]: [path.replace(/\/\//g, "/").replace(/\/$/, "")]. *)
Definition route_path_of (s : string) : string :=
  JsString.strip_trailing_slash (JsString.replace_double_slash s).

(** The helper of the [middlewares] getter:
    [path.replace(/\/\//g, "/").replace(/\/$/, "") || "/"]. *)
Definition normalizePath (path : string) : string :=
  match JsString.strip_trailing_slash (JsString.replace_double_slash path) with
  | "" => "/"
  | s => s
  end.

(** ** The regular expressions that [#middlewaresOf] builds

    The source turns a middleware path into the text of a regular expression
    by three [replace] passes and hands it to [new RegExp].  The passes are
    modelled on strings; [compile] reads the fragment of the syntax that the
    passes can produce, and [test] decides membership by derivatives.  The
    expressions have no back-references or look-around and are anchored at
    both ends, so [RegExp.prototype.test] is language membership. *)
Module Regex.
Import JsString.

(** Pass 1: [.replace(/[.*+?^${}()|[\]\\]/g, '\\$&')]. *)
Fixpoint escape_syntax (s : string) : string :=
  match s with
  | "" => ""
  | String c r =>
      if is_syntax_char c then String "\" (String c (escape_syntax r))
      else String c (escape_syntax r)
  end.

(** Pass 2: [.replace(/\\\*/g, '.+')]. *)
Fixpoint replace_wildcards (s : string) : string :=
  match s with
  | String c (String d r as t) =>
      if is_backslash c && is_star d then String "." (String "+" (replace_wildcards r))
      else String c (replace_wildcards t)
  | _ => s
  end.

(** Pass 3: [.replace(/:([\w]+)/g, '([^/]+)')]; [skipping] says that the
    scan is inside the word characters of a parameter name. *)
Fixpoint replace_params (skipping : bool) (s : string) : string :=
  match s with
  | "" => ""
  | String c r =>
      if skipping && is_word c then replace_params true r
      else if is_colon c && starts_with is_word r
           then "([^/]+)" +:+ replace_params true r
           else String c (replace_params false r)
  end.

(** [regexPattern] of the source. *)
Definition regexPattern (path : string) : string :=
  replace_params false (replace_wildcards (escape_syntax path)).

Inductive CharSet : Type :=
  | CsLit (c : ascii)      (* a literal or escaped character *)
  | CsDot                  (* [.] *)
  | CsNotSlash.            (* [[^/]] *)

Definition cs_mem (cs : CharSet) (c : ascii) : bool :=
  match cs with
  | CsLit d => Ascii.eqb c d
  | CsDot => negb (is_line_terminator c)
  | CsNotSlash => negb (is_slash c)
  end.

Inductive Re : Type :=
  | ReVoid
  | ReEps
  | ReChar (cs : CharSet)
  | ReCat (r1 r2 : Re)
  | ReAlt (r1 r2 : Re)
  | ReStar (r : Re).

Definition re_plus (r : Re) : Re := ReCat r (ReStar r).
Definition re_opt (r : Re) : Re := ReAlt r ReEps.

(** The body of an expression after its [^]: a sequence of units, closed by
    [$].  [skip] counts the characters of the current unit still to be
    passed over. *)
Fixpoint parse_units (skip : nat) (s : string) : option Re :=
  match s with
  | "" => None
  | String c r =>
      match skip with
      | S k => parse_units k r
      | O =>
          if String.prefix "([^/]+)" s
          then ReCat (re_plus (ReChar CsNotSlash)) <$> parse_units 6 r
          else if String.prefix "(/.*)?" s
          then ReCat (re_opt (ReCat (ReChar (CsLit "/")) (ReStar (ReChar CsDot))))
                 <$> parse_units 5 r
          else if String.prefix ".+" s
          then ReCat (re_plus (ReChar CsDot)) <$> parse_units 1 r
          else if is_backslash c
          then match r with
               | String d _ =>
                   if is_syntax_char d
                   then ReCat (ReChar (CsLit d)) <$> parse_units 1 r
                   else None
               | "" => None
               end
          else if Ascii.eqb c "$"
          then match r with "" => Some ReEps | _ => None end
          else if is_syntax_char c then None
          else ReCat (ReChar (CsLit c)) <$> parse_units 0 r
      end
  end.

(** [new RegExp(source)] for a source of the shape [^ units $]; [None]
    stands for a source outside the fragment. *)
Definition compile (source : string) : option Re :=
  match source with
  | String c body => if Ascii.eqb c "^" then parse_units 0 body else None
  | "" => None
  end.

Fixpoint nullable (r : Re) : bool :=
  match r with
  | ReVoid => false
  | ReEps => true
  | ReChar _ => false
  | ReCat r1 r2 => nullable r1 && nullable r2
  | ReAlt r1 r2 => nullable r1 || nullable r2
  | ReStar _ => true
  end.

Fixpoint deriv (c : ascii) (r : Re) : Re :=
  match r with
  | ReVoid => ReVoid
  | ReEps => ReVoid
  | ReChar cs => if cs_mem cs c then ReEps else ReVoid
  | ReCat r1 r2 =>
      if nullable r1 then ReAlt (ReCat (deriv c r1) r2) (deriv c r2)
      else ReCat (deriv c r1) r2
  | ReAlt r1 r2 => ReAlt (deriv c r1) (deriv c r2)
  | ReStar r1 => ReCat (deriv c r1) (ReStar r1)
  end.

Fixpoint re_matches (r : Re) (s : string) : bool :=
  match s with
  | "" => nullable r
  | String c s' => re_matches (deriv c r) s'
  end.

(** [new RegExp(source).test(input)] *)
Definition test (source input : string) : bool :=
  match compile source with
  | Some r => re_matches r input
  | None => false
  end.

(** The language of an expression, stated without derivatives. *)
Inductive re_lang : Re -> string -> Prop :=
  | lang_eps : re_lang ReEps ""
  | lang_char cs c : cs_mem cs c = true -> re_lang (ReChar cs) (String c "")
  | lang_cat r1 r2 s1 s2 :
      re_lang r1 s1 -> re_lang r2 s2 -> re_lang (ReCat r1 r2) (s1 +:+ s2)
  | lang_alt_l r1 r2 s : re_lang r1 s -> re_lang (ReAlt r1 r2) s
  | lang_alt_r r1 r2 s : re_lang r2 s -> re_lang (ReAlt r1 r2) s
  | lang_star_nil r : re_lang (ReStar r) ""
  | lang_star_more r s1 s2 :
      re_lang r s1 -> re_lang (ReStar r) s2 -> re_lang (ReStar r) (s1 +:+ s2).

End Regex.

(** ** Values, completions and responses *)

(** The JavaScript values that the modelled code touches.  An object is the
    list of its own properties; an [Error] object is an object whose own
    property [message] holds the message. *)
#[warnings="-register-all"]
Inductive JsVal : Type :=
  | JUndefined
  | JNull
  | JBool (b : bool)
  | JNum (n : Z)
  | JStr (s : string)
  | JObj (props : list (string * JsVal)).

(** [new Error(message)] *)
Definition new_Error (message : string) : JsVal :=
  JObj [("message", JStr message)].

(** A [TypeError] raised by the engine; the text of its message is the
    engine's and is kept symbolic. *)
Definition TypeError (message : string) : JsVal :=
  JObj [("name", JStr "TypeError"); ("message", JStr message)].

(** The result of running a piece of code: a value, or a thrown value (for an
    asynchronous function: the reason of the rejection). *)
Inductive Completion (A : Type) : Type :=
  | Return (a : A)
  | Throw (e : JsVal).
Arguments Return {A} a.
Arguments Throw {A} e.

#[global] Instance Completion_ret : MRet Completion := @Return.
#[global] Instance Completion_bind : MBind Completion :=
  fun A B k c => match c with Return a => k a | Throw e => Throw e end.

Module JsObject.

(** ToBoolean *)
Definition truthy (v : JsVal) : bool :=
  match v with
  | JUndefined | JNull => false
  | JBool b => b
  | JNum n => negb (n =? 0)%Z
  | JStr s => negb (String.eqb s "")
  | JObj _ => true
  end.

Fixpoint get_own (k : string) (props : list (string * JsVal)) : JsVal :=
  match props with
  | [] => JUndefined
  | (k', v) :: rest => if String.eqb k k' then v else get_own k rest
  end.

Fixpoint set_own (k : string) (v : JsVal) (props : list (string * JsVal))
  : list (string * JsVal) :=
  match props with
  | [] => [(k, v)]
  | (k', v') :: rest =>
      if String.eqb k k' then (k, v) :: rest else (k', v') :: set_own k v rest
  end.

(** [o[k]] where [o] is neither null nor undefined; properties inherited
    from the built-in prototypes are not modelled and read as undefined. *)
Definition get_prop (o : JsVal) (k : string) : JsVal :=
  match o with
  | JObj props => get_own k props
  | _ => JUndefined
  end.

(** [o[k] = v] in strict code (class bodies are strict): assigning to a
    property of a primitive value throws a [TypeError].  The one name that
    does not is [__proto__], whose inherited setter returns; it is outside
    the model. *)
Definition set_prop (o : JsVal) (k : string) (v : JsVal) : Completion JsVal :=
  match o with
  | JObj props => Return (JObj (set_own k v props))
  | _ => Throw (TypeError "cannot create property on a primitive value")
  end.

(** The expression [error.message] of the dispatch function's [catch]. *)
Definition get_message (error : JsVal) : Completion JsVal :=
  match error with
  | JUndefined | JNull => Throw (TypeError "cannot read properties of null or undefined")
  | _ => Return (get_prop error "message")
  end.

End JsObject.

Inductive Body : Type :=
  | BodyText (text : string)
  | BodyJson (data : JsVal).     (* the text [JSON.stringify(data)] *)

(** A [Response]: the status, the headers given at construction and the body. *)
Record Response : Type := {
  status : Z;
  headers : list (string * string);
  body : Body
}.

(** The [ResponseInit] options passed to a response builder. *)
Record ResponseInit : Type := {
  init_status : option Z;
  init_headers : list (string * string)
}.

Definition no_options : ResponseInit := {| init_status := None; init_headers := [] |}.

(** [{ 'Content-Type': t, ...options.headers }] *)
Fixpoint spread_headers (base extra : list (string * string)) : list (string * string) :=
  match extra with
  | [] => base
  | (k, v) :: rest =>
      spread_headers
        (if existsb (fun kv => String.eqb (fst kv) k) base
         then map (fun kv => if String.eqb (fst kv) k then (k, v) else kv) base
         else base ++ [(k, v)]) rest
  end.

(** ** [Request] (src/request.js) *)
Module Request.
Import JsString JsObject.

(** The raw request of the runtime, as far as [Request] reads it: the
    method, the path of the URL, what [headers.get("Content-Type")] returns
    and what each body reader resolves to or rejects with. *)
Record RawRequest : Type := {
  raw_method : string;
  raw_pathname : string;
  raw_content_type : option string;
  raw_json : Completion JsVal;
  raw_text : Completion string;
  raw_formData : Completion (list (string * JsVal))
}.

(** [json]: the body as JSON, [null] when the reader rejects. *)
Definition json (raw : RawRequest) : JsVal :=
  match raw_json raw with
  | Return v => v
  | Throw _ => JNull
  end.

(** [text]: the body as text, [null] ([None]) when the reader rejects. *)
Definition text (raw : RawRequest) : option string :=
  match raw_text raw with
  | Return s => Some s
  | Throw _ => None
  end.

(** [formData]: the entries of the form, [null] ([None]) when the reader
    rejects. *)
Definition formData (raw : RawRequest) : option (list (string * JsVal)) :=
  match raw_formData raw with
  | Return fd => Some fd
  | Throw _ => None
  end.

(** The body of the loop over [sections] followed by the final assignment:
    [current] is the object reached so far, the result is that object after
    the assignments below it. *)
Fixpoint assign_sections (sections : list string) (value : JsVal) (current : JsVal)
  : Completion JsVal :=
  match sections with
  | [] => Return current
  | [k] => set_prop current k value
  | k :: rest =>
      if truthy (get_prop current k)
      then child ← assign_sections rest value (get_prop current k);
           set_prop current k child
      else current' ← set_prop current k (JObj []);
           child ← assign_sections rest value (JObj []);
           set_prop current' k child
  end.

(** [for (const [key, value] of entries) { ... }] *)
Fixpoint assign_entries (entries : list (string * JsVal)) (data : JsVal)
  : Completion JsVal :=
  match entries with
  | [] => Return data
  | (key, value) :: rest =>
      data' ← assign_sections (split "." key) value data;
      assign_entries rest data'
  end.

Section Parse.
(** [new URLSearchParams(text)] followed by [.entries()] is the runtime's;
    it is a parameter of the model. *)
Variable URLSearchParams : string -> list (string * string).

Definition parse (raw : RawRequest) : Completion JsVal :=
  let contentType :=
    match raw_content_type raw with
    | Some s => toLowerCase s
    | None => ""
    end in
  if String.eqb contentType "" then Return JNull
  else if includes "application/json" contentType then Return (json raw)
  else if includes "application/x-www-form-urlencoded" contentType then
    (* a null text is converted to the string "null" by the constructor *)
    let fd := match text raw with Some s => s | None => "null" end in
    assign_entries (map (fun kv => (fst kv, JStr (snd kv))) (URLSearchParams fd)) (JObj [])
  else if includes "multipart/form-data" contentType then
    match formData raw with
    | None => Throw (TypeError "null has no property entries")
    | Some fd => assign_entries fd (JObj [])
    end
  else if includes "text/plain" contentType then
    Return (match text raw with Some s => JStr s | None => JNull end)
  else Return JNull.
End Parse.

End Request.

(** ** [Context] *)
Module Ctx.
Import JsObject.
Export Request.

(** The per-request context.  [rest] is the private field [#rest] seen
    through the only thing the context reads from it, the application's
    private field [#service]; [None] stands for a context built without an
    application. *)
Record Context : Type := {
  request : RawRequest;
  response : option Response;
  state : gmap string JsVal;
  rest : option JsVal
}.

Definition with_response (c : Context) (r : Response) : Context :=
  {| request := request c; response := Some r; state := state c; rest := rest c |}.

Definition set (key : string) (value : JsVal) (c : Context) : Context :=
  {| request := request c; response := response c;
     state := <[key := value]> (state c); rest := rest c |}.

Definition get (key : string) (defaultValue : JsVal) (c : Context) : JsVal :=
  match state c !! key with
  | Some v => v
  | None => defaultValue
  end.

Definition has (key : string) (c : Context) : bool :=
  bool_decide (is_Some (state c !! key)).

Definition delete (key : string) (c : Context) : Context * bool :=
  ({| request := request c; response := response c;
      state := base.delete key (state c); rest := rest c |},
   has key c).

(** [json(data, options)]: records and returns the response. *)
Definition json (data : JsVal) (options : ResponseInit) (c : Context)
  : Context * Response :=
  let r := {| status := default 200%Z (init_status options);
              headers := spread_headers [("Content-Type", "application/json")]
                           (init_headers options);
              body := BodyJson data |} in
  (with_response c r, r).

(** [text(text, options)] *)
Definition text (text : string) (options : ResponseInit) (c : Context)
  : Context * Response :=
  let r := {| status := default 200%Z (init_status options);
              headers := spread_headers [("Content-Type", "text/plain")]
                           (init_headers options);
              body := BodyText text |} in
  (with_response c r, r).

(** [notFound()]: returns a response and records nothing. *)
Definition notFound (c : Context) : Context * Response :=
  (c, {| status := 404; headers := []; body := BodyText "Not Found" |}).

(** [error(message, status, details, options)]; the status [code] defaults
    to 500 and [details] to the empty object at the call.  The model is of
    the calls that [Response.json] accepts: it throws, before anything is
    recorded, for a status outside 200 to 599, for a status that allows no
    body and for a header that is not well formed. *)
Definition error (message : string) (code : Z) (details : list (string * JsVal))
    (options : ResponseInit) (c : Context) : Context * Response :=
  let r := {| status := default code (init_status options);
              headers := spread_headers [("Content-Type", "application/json")]
                           (init_headers options);
              body := BodyJson
                        (JObj [("error",
                                JObj (fold_left (fun o kv => set_own (fst kv) (snd kv) o)
                                        details
                                        [("message", JStr message);
                                         ("status", JNum code)]))]) |} in
  (with_response c r, r).

End Ctx.

(** What running a handler yields: the context after the run, and the value
    returned or the value thrown.  The context is one mutable object in the
    sources; here it is threaded through the calls.  A handler is a function
    of the model, so it ends: a promise that never settles has no
    counterpart, nor has a middleware that lets [next] run on without
    awaiting it. *)
Definition Outcome : Type := Ctx.Context * Completion (option Response).

(** [RestHandler] and [MiddlewareHandler] of the type declarations. *)
Definition RestHandler : Type := Ctx.Context -> Outcome.
Definition MiddlewareHandler : Type := Ctx.Context -> RestHandler -> Outcome.

(** ** [Route] *)

(** The methods that the constructor of [Route] accepts. *)
Inductive RestMethod : Type := GET | POST | PUT | DELETE | PATCH | OPTIONS.

Definition method_name (m : RestMethod) : string :=
  match m with
  | GET => "GET" | POST => "POST" | PUT => "PUT"
  | DELETE => "DELETE" | PATCH => "PATCH" | OPTIONS => "OPTIONS"
  end.

#[global] Instance RestMethod_eq_dec : EqDecision RestMethod.
Proof. solve_decision. Defined.

Record Route : Type := {
  route_method : RestMethod;
  route_path : string;
  route_handler : RestHandler
}.

(** [new Route(method, path, handler)]: the method is one of the six names
    and the handler a function by their types; an empty path is refused. *)
Definition new_Route (method : RestMethod) (path : string) (handler : RestHandler)
  : Completion Route :=
  if String.eqb path "" then Throw (new_Error ("Invalid path: " +:+ path))
  else Return {| route_method := method; route_path := path; route_handler := handler |}.

(** The getter [handler] of [Route]: an asynchronous wrapper of the handler. *)
Definition Route_handler (r : Route) : RestHandler :=
  fun context => route_handler r context.

(** ** [Middleware] *)
Record Middleware : Type := {
  mw_path : string;
  mw_handler : MiddlewareHandler
}.

(** The getter [handler] of [Middleware]. *)
Definition Middleware_handler (m : Middleware) : MiddlewareHandler :=
  fun context next => mw_handler m context next.

(** ** [Rest] *)

(** An application: its routes, its middlewares, its mounts and its service
    slot ([null] until a service is set).  A value of this type is the graph
    of objects reachable from an application when one of its getters runs; a
    mounted application appears under its mount. *)
#[warnings="-register-all"]
Inductive Rest : Type :=
  MkRest (routes_ : list Route) (middlewares_ : list Middleware)
         (mounts_ : list (string * Rest)) (service_ : JsVal).

(** An entry of [getRoutes]. *)
Record FlatRoute : Type := {
  fr_route : Route;
  fr_path : string;
  fr_method : string
}.

(** An entry of the [middlewares] getter. *)
Record FlatMiddleware : Type := {
  fm_middleware : Middleware;
  fm_path : string;
  fm_order : Z
}.

(** The dispatch functions of the table: from a raw request to the response
    the promise resolves to, or the reason it rejects with. *)
Definition DispatchFn : Type := Request.RawRequest -> Completion Response.

Module RestApp.
Import JsObject.

Definition own_routes (app : Rest) : list Route :=
  match app with MkRest rs _ _ _ => rs end.
Definition own_middlewares (app : Rest) : list Middleware :=
  match app with MkRest _ ms _ _ => ms end.
Definition mounts (app : Rest) : list (string * Rest) :=
  match app with MkRest _ _ ms _ => ms end.
Definition service_slot (app : Rest) : JsVal :=
  match app with MkRest _ _ _ s => s end.

(** [new Rest()] *)
Definition new_Rest : Rest := MkRest [] [] [] JNull.

Definition same_route (method : RestMethod) (path : string) (r : Route) : bool :=
  bool_decide (route_method r = method) && String.eqb (route_path r) path.

(** [#addRoute(route)] *)
Definition addRoute (route : Route) (app : Rest) : Completion Rest :=
  match app with
  | MkRest rs ms mts s =>
      match find (same_route (route_method route) (route_path route)) rs with
      | Some _ =>
          Throw (new_Error ("Route already exists: "
                            +:+ method_name (route_method route)
                            +:+ " " +:+ route_path route))
      | None => Return (MkRest (rs ++ [route]) ms mts s)
      end
  end.

(** The body shared by [get], [post], [put], [delete], [patch], [options]. *)
Definition register (method : RestMethod) (path : string) (handler : RestHandler)
    (app : Rest) : Completion Rest :=
  route ← new_Route method path handler;
  addRoute route app.

Definition get := register GET.
Definition post := register POST.
Definition put := register PUT.
Definition delete := register DELETE.
Definition patch := register PATCH.
Definition options := register OPTIONS.

(** [use(paths, handler)]; a single path is the one-element array. *)
Definition use (paths : list string) (handler : MiddlewareHandler) (app : Rest) : Rest :=
  fold_left
    (fun app path =>
       match app with
       | MkRest rs ms mts s =>
           MkRest rs (ms ++ [{| mw_path := path; mw_handler := handler |}]) mts s
       end)
    paths app.

(** [mount(path, app)] *)
Definition mount (path : string) (child : Rest) (app : Rest) : Rest :=
  match app with
  | MkRest rs ms mts s => MkRest rs ms (mts ++ [(path, child)]) s
  end.

Definition mount_prefix (path : string) : string :=
  if String.eqb path "/" then "" else path.

(** [getRoutes()].  [this.basepath] is not a member of [Rest] and reads as
    undefined, so the prefix of the application's own routes is the default
    [""].  The six method names are their own upper case. *)
Fixpoint getRoutes (app : Rest) : list FlatRoute :=
  match app with
  | MkRest rs _ mts _ =>
      map (fun r => {| fr_route := r;
                       fr_path := route_path_of ("" +:+ route_path r);
                       fr_method := method_name (route_method r) |}) rs
      ++ flat_map
           (fun m =>
              match m with
              | (path, child) =>
                  map (fun r => {| fr_route := fr_route r;
                                   fr_path := route_path_of (mount_prefix path +:+ fr_path r);
                                   fr_method := fr_method r |})
                      (getRoutes child)
              end) mts
  end.

(** The getter [middlewares]. *)
Fixpoint middlewares (app : Rest) : list FlatMiddleware :=
  match app with
  | MkRest _ ms mts _ =>
      let currentMiddlewares :=
        imap (fun index m => {| fm_middleware := m;
                                fm_path := normalizePath ("" +:+ mw_path m);
                                fm_order := Z.of_nat index |}) ms in
      let mountedMiddlewares :=
        flat_map
          (fun mount =>
             match mount with
             | (path, child) =>
                 map (fun m => {| fm_middleware := fm_middleware m;
                                  fm_path := normalizePath (mount_prefix path +:+ fm_path m);
                                  fm_order := Z.of_nat (length currentMiddlewares)
                                              + fm_order m |})
                     (middlewares child)
             end) mts in
      currentMiddlewares ++ mountedMiddlewares
  end.

(** The predicate of the [filter] in [#middlewaresOf]. *)
Definition applies (mpath path : string) : bool :=
  if String.eqb mpath "*" then true
  else
    let regexPattern := Regex.regexPattern mpath in
    if Regex.test ("^" +:+ regexPattern +:+ "$") path then true
    else Regex.test ("^" +:+ regexPattern +:+ "(/.*)?$") path.

(** The comparison function of the [sort] in [#middlewaresOf]. *)
Definition compare (a b : FlatMiddleware) : Z :=
  (if String.eqb (fm_path a) "*" then 1
   else if String.eqb (fm_path b) "*" then -1
   else
     let aWildcards := Z.of_nat (JsString.count_stars (fm_path a)) in
     let bWildcards := Z.of_nat (JsString.count_stars (fm_path b)) in
     if negb (aWildcards =? bWildcards) then aWildcards - bWildcards
     else
       let aParams := Z.of_nat (JsString.count_params (fm_path a)) in
       let bParams := Z.of_nat (JsString.count_params (fm_path b)) in
       if negb (aParams =? bParams) then aParams - bParams
       else
         let aSegments := Z.of_nat (length (JsString.split "/" (fm_path a))) in
         let bSegments := Z.of_nat (length (JsString.split "/" (fm_path b))) in
         if negb (aSegments =? bSegments) then bSegments - aSegments
         else
           let aLength := Z.of_nat (String.length (fm_path a)) in
           let bLength := Z.of_nat (String.length (fm_path b)) in
           if negb (aLength =? bLength) then bLength - aLength
           else fm_order a - fm_order b)%Z.

(** [Array.prototype.sort(comparefn)]: a stable sort.  An element moves in
    front of an earlier one exactly when [comparefn(later, earlier)] is
    negative, which is how the merge of the runtime consults the function;
    for a consistent comparison every stable sort gives this result. *)
Fixpoint sort_insert {A} (comparefn : A -> A -> Z) (x : A) (sorted : list A) : list A :=
  match sorted with
  | [] => [x]
  | y :: rest =>
      if (comparefn x y <? 0)%Z then x :: y :: rest
      else y :: sort_insert comparefn x rest
  end.

Definition sort {A} (comparefn : A -> A -> Z) (l : list A) : list A :=
  fold_left (fun sorted x => sort_insert comparefn x sorted) l [].

(** [#middlewaresOf(path)] *)
Definition middlewaresOf (app : Rest) (path : string) : list FlatMiddleware :=
  sort compare (List.filter (fun m => applies (fm_path m) path) (middlewares app)).

(** The body of the getter [service], on the private field [#service]. *)
Definition read_service (slot : JsVal) : Completion JsVal :=
  if negb (truthy slot) then Throw (new_Error "Service not set")
  else Return slot.

(** The getter [service]. *)
Definition service (app : Rest) : Completion JsVal :=
  read_service (service_slot app).

(** The setter [service]. *)
Definition set_service (value : JsVal) (app : Rest) : Completion Rest :=
  match app with
  | MkRest rs ms mts s =>
      if truthy s then Throw (new_Error "Service already set")
      else Return (MkRest rs ms mts value)
  end.

(** [new Context(request, this)] *)
Definition new_Context (request : Request.RawRequest) (app : Rest) : Ctx.Context :=
  {| Ctx.request := request; Ctx.response := None; Ctx.state := ∅;
     Ctx.rest := Some (service_slot app) |}.

(** The getter [service] of [Context]: [this.#rest?.service || null]. *)
Definition Context_service (c : Ctx.Context) : Completion JsVal :=
  match Ctx.rest c with
  | None => Return JNull
  | Some slot =>
      value ← read_service slot;
      Return (if truthy value then value else JNull)
  end.

(** The loop that builds the chain:
    [for (let i = handlers.length - 1; i >= 0; i--)]; the argument [i] is
    the number of iterations left, the index of the iteration is [i - 1]. *)
Fixpoint chain_loop (handlers : list MiddlewareHandler) (i : nat) (next : RestHandler)
  : RestHandler :=
  match i with
  | O => next
  | S j =>
      match handlers !! j with
      | Some handler =>
          let currentNext := next in
          chain_loop handlers j (fun context => handler context currentNext)
      | None => next
      end
  end.

(** The chain of one flattened route. *)
Definition chain (app : Rest) (route : FlatRoute) : RestHandler :=
  let middlewares := middlewaresOf app (fr_path route) in
  let handlers := reverse (map (fun m => Middleware_handler (fm_middleware m)) middlewares) in
  chain_loop handlers (length handlers) (Route_handler (fr_route route)).

(** The [catch] block of the dispatch function. *)
Definition dispatch_catch (context : Ctx.Context) (error : JsVal) : Completion Response :=
  match Ctx.response context with
  | Some r => Return r
  | None =>
      message ← get_message error;
      Return {| status := 500;
                headers := [("Content-Type", "application/json")];
                body := BodyJson (JObj [("error", JStr "Internal Server Error");
                                        ("message", message)]) |}
  end.

(** The dispatch function stored in the table for a chain [next]. *)
Definition dispatch (app : Rest) (next : RestHandler) : DispatchFn :=
  fun request =>
    let context := new_Context request app in
    match next context with
    | (context', Return _) =>
        match Ctx.response context' with
        | Some r => Return r
        | None => dispatch_catch context' (new_Error "No response set in context")
        end
    | (context', Throw error) => dispatch_catch context' error
    end.

(** The getter [routes]: the table from path to method to dispatch function.
    The two levels of plain objects are finite maps of their own properties:
    a path or a method that names a member of [Object.prototype] is read and
    written by the source on the inherited member, which the maps do not
    show. *)
Definition routes (app : Rest) : gmap string (gmap string DispatchFn) :=
  fold_left
    (fun routes route =>
       let of_path := default ∅ (routes !! fr_path route) in
       <[fr_path route := <[fr_method route := dispatch app (chain app route)]> of_path]>
         routes)
    (getRoutes app) ∅.

(** The getter [fetch]: the function it returns. *)
Definition fetch (app : Rest) (request : Request.RawRequest) : Completion Response :=
  Return {| status := 404; headers := []; body := BodyText "Not found" |}.

End RestApp.

(** ** The claims of the specification, as predicates on the model *)
Module Claimed.

(** A body of the shape [{error: {message, status, ...details}}]. *)
Definition error_shaped (b : Body) : Prop :=
  exists message code details,
    b = BodyJson (JObj [("error",
                         JObj (("message", message) :: ("status", code) :: details))]).

(** A chain given outermost first: each middleware receives the rest of
    the chain as its [next]. *)
Fixpoint onion (wrappers : list MiddlewareHandler) (handler : RestHandler) : RestHandler :=
  match wrappers with
  | [] => handler
  | outer :: inner => fun context => outer context (onion inner handler)
  end.

(** A middleware that runs [pre], awaits [next] and runs [post]. *)
Definition around (pre post : Ctx.Context -> Ctx.Context) : MiddlewareHandler :=
  fun context next =>
    let '(context', completion) := next (pre context) in
    (post context', completion).

Fixpoint lex_lt (k1 k2 : list Z) : Prop :=
  match k1, k2 with
  | x :: r1, y :: r2 => (x < y)%Z \/ (x = y /\ lex_lt r1 r2)
  | _, _ => False
  end.

(** The criteria 2 to 6 of the specificity order, smaller is more specific. *)
Definition specificity_key (m : FlatMiddleware) : list Z :=
  [Z.of_nat (JsString.count_stars (fm_path m));
   Z.of_nat (JsString.count_params (fm_path m));
   (- Z.of_nat (length (JsString.split "/" (fm_path m))))%Z;
   (- Z.of_nat (String.length (fm_path m)))%Z;
   fm_order m].

(** [a] is strictly more specific than [b]: criterion 1, then 2 to 6. *)
Definition more_specific (a b : FlatMiddleware) : Prop :=
  fm_path a <> "*" /\
  (fm_path b = "*" \/ lex_lt (specificity_key a) (specificity_key b)).

(** The parts of a middleware path: a wildcard [*], a parameter (a colon and
    the word characters after it), or a literal character. *)
Inductive Token : Type :=
  | TLit (c : ascii)
  | TWild
  | TParam.

(** Reading a path into its parts; [skipping] says that the scan is inside
    the name of a parameter. *)
Fixpoint tokens_go (skipping : bool) (s : string) : list Token :=
  match s with
  | "" => []
  | String c r =>
      if skipping && JsString.is_word c then tokens_go true r
      else if JsString.is_colon c && JsString.starts_with JsString.is_word r
           then TParam :: tokens_go true r
           else if JsString.is_star c then TWild :: tokens_go false r
                else TLit c :: tokens_go false r
  end.

Definition tokens (path : string) : list Token := tokens_go false path.

Fixpoint all_chars (p : ascii -> bool) (s : string) : bool :=
  match s with
  | "" => true
  | String c r => p c && all_chars p r
  end.

(** [resolves ts q]: the text [q] is the path [ts] with its parameters and
    wildcards resolved.  A literal stands for itself, a wildcard for one or
    more characters none of which is a line terminator, a parameter for one
    or more characters none of which is a slash. *)
Inductive resolves : list Token -> string -> Prop :=
  | resolves_nil : resolves [] ""
  | resolves_lit c ts s :
      resolves ts s -> resolves (TLit c :: ts) (String c s)
  | resolves_wild ts w s :
      w <> "" -> all_chars (fun c => negb (JsString.is_line_terminator c)) w = true ->
      resolves ts s -> resolves (TWild :: ts) (w +:+ s)
  | resolves_param ts w s :
      w <> "" -> all_chars (fun c => negb (JsString.is_slash c)) w = true ->
      resolves ts s -> resolves (TParam :: ts) (w +:+ s).

(** What may follow, in the request path, the part that resolves the middleware
    path: nothing, or a slash and a rest without line terminator. *)
Definition below (rest : string) : Prop :=
  rest = ""
  \/ exists r, rest = String "/" r
               /\ all_chars (fun c => negb (JsString.is_line_terminator c)) r = true.

(** The text that the three passes make of the parts. *)
Definition render_token (t : Token) : string :=
  match t with
  | TLit c => if JsString.is_syntax_char c then String "\" (String c "") else String c ""
  | TWild => ".+"
  | TParam => "([^/]+)"
  end.

Fixpoint render (ts : list Token) : string :=
  match ts with
  | [] => ""
  | t :: ts' => render_token t +:+ render ts'
  end.

(** The expression that [compile] makes of the parts, in front of [tail]. *)
Definition re_of_token (t : Token) : Regex.Re :=
  match t with
  | TLit c => Regex.ReChar (Regex.CsLit c)
  | TWild => Regex.re_plus (Regex.ReChar Regex.CsDot)
  | TParam => Regex.re_plus (Regex.ReChar Regex.CsNotSlash)
  end.

Fixpoint re_of_tokens (ts : list Token) (tail : Regex.Re) : Regex.Re :=
  match ts with
  | [] => tail
  | t :: ts' => Regex.ReCat (re_of_token t) (re_of_tokens ts' tail)
  end.

(** The expression of the optional suffix of the prefix test: a slash and
    any characters that [.] accepts. *)
Definition re_below : Regex.Re :=
  Regex.re_opt (Regex.ReCat (Regex.ReChar (Regex.CsLit "/"))
                            (Regex.ReStar (Regex.ReChar Regex.CsDot))).

(** No two, and no three, slashes in a row. *)
Fixpoint no_double_slash (s : string) : bool :=
  match s with
  | String c (String d _ as t) =>
      negb (JsString.is_slash c && JsString.is_slash d) && no_double_slash t
  | _ => true
  end.

Fixpoint no_triple_slash (s : string) : bool :=
  match s with
  | String c (String d (String e _) as t) =>
      negb (JsString.is_slash c && JsString.is_slash d && JsString.is_slash e)
      && no_triple_slash t
  | _ => true
  end.

(** A list is in specificity order when none of its elements is strictly
    more specific than an element before it. *)
Definition in_specificity_order (l : list FlatMiddleware) : Prop :=
  StronglySorted (fun a b => ~ more_specific b a) l.

(** Two entries that no criterion of the order tells apart: both have the
    pattern [*], or neither has and they agree on the criteria 2 to 6, the
    ordinal included. *)
Definition same_rank (a b : FlatMiddleware) : bool :=
  if String.eqb (fm_path a) "*" then String.eqb (fm_path b) "*"
  else negb (String.eqb (fm_path b) "*")
       && bool_decide (specificity_key a = specificity_key b).

End Claimed.

(** ** Names for what the operations produce *)
Module Produced.
Import RestApp.

(** The error of [#addRoute]. *)
Definition duplicate_error (method : RestMethod) (path : string) : JsVal :=
  new_Error ("Route already exists: " +:+ method_name method +:+ " " +:+ path).

(** The entry that [getRoutes] makes of one of the application's routes. *)
Definition own_entry (r : Route) : FlatRoute :=
  {| fr_route := r;
     fr_path := route_path_of (route_path r);
     fr_method := method_name (route_method r) |}.

(** The entry that [getRoutes] makes of an entry of an application mounted
    at [path]. *)
Definition mounted_entry (path : string) (r : FlatRoute) : FlatRoute :=
  {| fr_route := fr_route r;
     fr_path := route_path_of (mount_prefix path +:+ fr_path r);
     fr_method := fr_method r |}.

(** The 500 response that the [catch] block of a dispatch function builds
    around [error.message]. *)
Definition internal_error (message : JsVal) : Response :=
  {| status := 500;
     headers := [("Content-Type", "application/json")];
     body := BodyJson (JObj [("error", JStr "Internal Server Error");
                             ("message", message)]) |}.

(** One iteration of the [forEach] in the getter [routes]. *)
Definition add_dispatch (app : Rest) (routes : gmap string (gmap string DispatchFn))
    (route : FlatRoute) : gmap string (gmap string DispatchFn) :=
  let of_path := default ∅ (routes !! fr_path route) in
  <[fr_path route := <[fr_method route := dispatch app (chain app route)]> of_path]> routes.

(** The lookup [routes[path][method]] of the host runtime. *)
Definition lookup_dispatch (routes : gmap string (gmap string DispatchFn))
    (path method : string) : option DispatchFn :=
  of_path ← routes !! path; of_path !! method.

(** The test "this entry has this path and this method". *)
Definition is_entry_for (path method : string) (route : FlatRoute) : bool :=
  String.eqb (fr_path route) path && String.eqb (fr_method route) method.

(** The entry that the getter [middlewares] makes of the application's own
    middleware at [index]. *)
Definition own_middleware_entry (index : nat) (m : Middleware) : FlatMiddleware :=
  {| fm_middleware := m;
     fm_path := normalizePath (mw_path m);
     fm_order := Z.of_nat index |}.

(** The entry that it makes of an entry of an application mounted at [path],
    in a parent with [own_count] middlewares of its own. *)
Definition mounted_middleware_entry (own_count : nat) (path : string) (m : FlatMiddleware)
  : FlatMiddleware :=
  {| fm_middleware := fm_middleware m;
     fm_path := normalizePath (mount_prefix path +:+ fm_path m);
     fm_order := (Z.of_nat own_count + fm_order m)%Z |}.

(** The position, in the flattened view of [app], of the first entry that
    comes from its mount number [k]. *)
Definition block_start (app : Rest) (k : nat) : nat :=
  length (own_middlewares app)
  + sum_list_with (fun mt => length (middlewares (snd mt))) (take k (mounts app)).

End Produced.
Import Produced.

(** The reading of "siblings stay in mount-call order" on ordinals: no entry
    of a child mounted earlier has a larger ordinal than an entry of a child
    mounted later. *)
Definition sibling_ordinals_follow_mounts (app : Rest) : Prop :=
  forall k k' path child path' child' e e',
    (k < k')%nat ->
    RestApp.mounts app !! k = Some (path, child) ->
    RestApp.mounts app !! k' = Some (path', child') ->
    In e (RestApp.middlewares child) ->
    In e' (RestApp.middlewares child') ->
    (fm_order (mounted_middleware_entry (length (RestApp.own_middlewares app)) path e)
     <= fm_order (mounted_middleware_entry (length (RestApp.own_middlewares app)) path' e'))%Z.

(** ** Applications and requests used as examples *)
Module Scenario.
Import RestApp.

(** A [GET] request for [pathname] without a body. *)
Definition get_request (pathname : string) : Request.RawRequest :=
  {| Request.raw_method := "GET";
     Request.raw_pathname := pathname;
     Request.raw_content_type := None;
     Request.raw_json := Throw (new_Error "Unexpected end of JSON input");
     Request.raw_text := Return "";
     Request.raw_formData := Throw (TypeError "no form data") |}.

(** A multipart request whose body cannot be read as form data. *)
Definition multipart_unreadable : Request.RawRequest :=
  {| Request.raw_method := "POST";
     Request.raw_pathname := "/upload";
     Request.raw_content_type := Some "multipart/form-data; boundary=x";
     Request.raw_json := Throw (new_Error "Unexpected token");
     Request.raw_text := Return "garbage";
     Request.raw_formData := Throw (TypeError "malformed multipart body") |}.

(** [c => c.json({ message: "Hello" })] *)
Definition hello : RestHandler :=
  fun c =>
    let '(c', r) := Ctx.json (JObj [("message", JStr "Hello")]) no_options c in
    (c', Return (Some r)).

(** [c => { throw new Error("boom") }] *)
Definition boom : RestHandler :=
  fun c => (c, Throw (new_Error "boom")).

(** [c => { throw null }] *)
Definition throw_null : RestHandler :=
  fun c => (c, Throw JNull).

(** [c => c.text(s)] *)
Definition say (s : string) : RestHandler :=
  fun c => let '(c', r) := Ctx.text s no_options c in (c', Return (Some r)).

(** [async (c, next) => { await next(c) }] *)
Definition pass : MiddlewareHandler :=
  fun c next => next c.

Definition hello_route : Route :=
  {| route_method := GET; route_path := "/"; route_handler := hello |}.

(** [new Rest().get("/", hello)] *)
Definition hello_app : Rest := MkRest [hello_route] [] [] JNull.

(** [new Rest().get("/", boom)] *)
Definition boom_app : Rest :=
  MkRest [{| route_method := GET; route_path := "/"; route_handler := boom |}] [] [] JNull.

(** [new Rest().get("/", throw_null)] *)
Definition throw_null_app : Rest :=
  MkRest [{| route_method := GET; route_path := "/"; route_handler := throw_null |}]
         [] [] JNull.

(** [new Rest().get("/a", say "first").get("/a/", say "second")] *)
Definition slash_variants_app : Rest :=
  MkRest [{| route_method := GET; route_path := "/a"; route_handler := say "first" |};
          {| route_method := GET; route_path := "/a/"; route_handler := say "second" |}]
         [] [] JNull.

(** Two children, the first with middlewares on [/x] and [/y], the second
    with one on [/y], mounted in this order at [/] in a parent that has the
    route [GET /y]. *)
Definition first_child : Rest :=
  MkRest [] [{| mw_path := "/x"; mw_handler := pass |};
             {| mw_path := "/y"; mw_handler := pass |}] [] JNull.
Definition second_child : Rest :=
  MkRest [] [{| mw_path := "/y"; mw_handler := pass |}] [] JNull.
Definition siblings_app : Rest :=
  MkRest [{| route_method := GET; route_path := "/y"; route_handler := say "y" |}]
         [] [("/", first_child); ("/", second_child)] JNull.

(** Two children with the same route [GET /x], mounted at the same prefix. *)
Definition twins_app : Rest :=
  MkRest [] []
         [("/api", MkRest [{| route_method := GET; route_path := "/x";
                              route_handler := say "first" |}] [] [] JNull);
          ("/api", MkRest [{| route_method := GET; route_path := "/x";
                              route_handler := say "second" |}] [] [] JNull)]
         JNull.

(** Appending to the log kept in the store of the context. *)
Definition log (entry : string) (c : Ctx.Context) : Ctx.Context :=
  Ctx.set "log"
    (JStr (match Ctx.get "log" (JStr "") c with
           | JStr s => s +:+ entry
           | _ => entry
           end)) c.

(** [async (c, next) => { log("<tag"); await next(c); log(">tag") }] *)
Definition logging (tag : string) : MiddlewareHandler :=
  Claimed.around (log ("<" +:+ tag)) (log (">" +:+ tag)).

(** Two children, each with one middleware on [/y], mounted at [/] by a
    parent without middlewares of its own: both entries get the ordinal 0. *)
Definition tied_siblings_app : Rest :=
  MkRest [{| route_method := GET; route_path := "/y"; route_handler := say "y" |}]
         []
         [("/", MkRest [] [{| mw_path := "/y"; mw_handler := logging "a" |}] [] JNull);
          ("/", MkRest [] [{| mw_path := "/y"; mw_handler := logging "b" |}] [] JNull)]
         JNull.

Definition logged_route : Route :=
  {| route_method := GET; route_path := "/users/1";
     route_handler := fun c => say "one" (log "handler" c) |}.

(** [new Rest().use("*", logging "outer").use("/users/*", logging "inner")
    .get("/users/1", ...)] *)
Definition logged_app : Rest :=
  MkRest [logged_route]
         [{| mw_path := "*"; mw_handler := logging "outer" |};
          {| mw_path := "/users/*"; mw_handler := logging "inner" |}]
         [] JNull.

End Scenario.


From Stdlib Require Import FunctionalExtensionality.
From stdpp Require Import pretty.

(** ** Setting an application up *)
Module Setup.
Import RestApp.

(** A call of the registration interface. *)
Inductive Call : Type :=
  | CallRoute (method : RestMethod) (path : string) (handler : RestHandler)
  | CallUse (paths : list string) (handler : MiddlewareHandler)
  | CallMount (path : string) (child : Rest)
  | CallSetService (value : JsVal).

(** The application after a call, whether the call returned or threw: the
    calls that throw do so before they assign or push anything. *)
Definition after (call : Call) (app : Rest) : Rest :=
  match call with
  | CallRoute method path handler =>
      match register method path handler app with
      | Return app' => app'
      | Throw _ => app
      end
  | CallUse paths handler => use paths handler app
  | CallMount path child => mount path child app
  | CallSetService value =>
      match set_service value app with
      | Return app' => app'
      | Throw _ => app
      end
  end.

Definition after_all (calls : list Call) (app : Rest) : Rest :=
  fold_left (fun app call => after call app) calls app.

(** What [#addRoute] compares. *)
Definition route_key (r : Route) : RestMethod * string :=
  (route_method r, route_path r).

(** The entries of [getRoutes] that come from the mounts. *)
Definition mounted_routes (app : Rest) : list FlatRoute :=
  flat_map (fun m => map (mounted_entry (fst m)) (getRoutes (snd m))) (mounts app).

(** An entry of the middleware view with its ordinal moved up by [k]. *)
Definition shift_order (k : nat) (e : FlatMiddleware) : FlatMiddleware :=
  {| fm_middleware := fm_middleware e;
     fm_path := fm_path e;
     fm_order := (Z.of_nat k + fm_order e)%Z |}.

Fixpoint ends_with_slash (s : string) : bool :=
  match s with
  | "" => false
  | String c r =>
      match r with
      | "" => JsString.is_slash c
      | _ => ends_with_slash r
      end
  end.

Definition is_star_entry (e : FlatMiddleware) : bool := String.eqb (fm_path e) "*".

End Setup.

(** ** The listing of routes (src/utils.js) *)
Module Utils.

(** The filter of [printRoutes]: the middlewares listed beside a route are
    those whose expression, with the optional suffix, accepts the path of the
    route. *)
Definition listed (mw_path route_path : string) : bool :=
  Regex.test ("^" +:+ Regex.regexPattern mw_path +:+ "(/.*)?$") route_path.

Definition listed_middlewares (app : Rest) (route : FlatRoute) : list FlatMiddleware :=
  List.filter (fun mw => listed (fm_path mw) (fr_path route)) (RestApp.middlewares app).

End Utils.

(** ** Handlers and predicates used in the statements *)
Module Behaviour.

(** [c => c.notFound()] *)
Definition not_found_handler : RestHandler :=
  fun c => let '(c', r) := Ctx.notFound c in (c', Return (Some r)).

(** A middleware whose outcome does not depend on its [next]: it never calls
    it, or ignores what it does. *)
Definition ignores_next (handler : MiddlewareHandler) : Prop :=
  forall c next next', handler c next = handler c next'.

(** A middleware path without wildcard and without parameter. *)
Definition is_static (path : string) : bool :=
  forallb (fun t => match t with Claimed.TLit _ => true | _ => false end)
          (Claimed.tokens path).

Definition no_line_terminator (s : string) : bool :=
  Claimed.all_chars (fun c => negb (JsString.is_line_terminator c)) s.

(** A status that [Response.json] accepts: from 200 to 599, and not one of
    the statuses that allow no body. *)
Definition body_status (code : Z) : bool :=
  (200 <=? code)%Z && (code <=? 599)%Z && negb (existsb (Z.eqb code) [204; 205; 304]%Z).

(** The characters of a header name. *)
Definition is_token_char (c : ascii) : bool :=
  JsString.in_range 48 57 c || JsString.in_range 65 90 c || JsString.in_range 97 122 c
  || existsb (Ascii.eqb c)
       ["!"; "#"; "$"; "%"; "&"; "'"; "*"; "+"; "-"; "."; "^"; "_"; "`"; "|"; "~"]%char.

(** A header that the constructor of [Headers] accepts: the name is a token,
    the value holds no NUL, line feed or carriage return. *)
Definition well_formed_header (kv : string * string) : bool :=
  negb (String.eqb (fst kv) "")
  && Claimed.all_chars is_token_char (fst kv)
  && Claimed.all_chars (fun c => negb (existsb (Ascii.eqb c) ["000"; "010"; "013"]%char))
       (snd kv).

(** The calls of [c.error(message, code, details, options)] for which
    [Response.json] returns. *)
Definition error_accepted (code : Z) (options : ResponseInit) : bool :=
  body_status (default code (init_status options))
  && forallb well_formed_header (init_headers options).

End Behaviour.

(** ** Reading what [parse] builds *)
Module Built.

(** The names that every object inherits from [Object.prototype]; reading
    them on an object finds the inherited value, which the model of objects
    by their own properties does not show. *)
Definition inherited_names : list string :=
  ["constructor"; "__proto__"; "toString"; "toLocaleString"; "valueOf";
   "hasOwnProperty"; "isPrototypeOf"; "propertyIsEnumerable";
   "__defineGetter__"; "__defineSetter__"; "__lookupGetter__"; "__lookupSetter__"].

Definition plain_name (k : string) : bool :=
  negb (existsb (String.eqb k) inherited_names).

Definition dot_free (k : string) : bool :=
  Claimed.all_chars (fun c => negb (Ascii.eqb c ".")) k.

(** [o[k1][k2]...[kn]] *)
Fixpoint get_path (sections : list string) (o : JsVal) : JsVal :=
  match sections with
  | [] => o
  | k :: rest => get_path rest (JsObject.get_prop o k)
  end.

(** The value of the last entry with the key [k], if there is one. *)
Definition last_value (k : string) (entries : list (string * JsVal)) : option JsVal :=
  snd <$> find (fun kv => String.eqb (fst kv) k) (rev entries).

End Built.

(** ** More examples *)
Module More.

(** A parent with its own [GET /x] and a child with [GET /x] mounted at [/]. *)
Definition shadowed_app : Rest :=
  MkRest [{| route_method := GET; route_path := "/x";
             route_handler := Scenario.say "own" |}]
         []
         [("/", MkRest [{| route_method := GET; route_path := "/x";
                           route_handler := Scenario.say "mounted" |}] [] [] JNull)]
         JNull.

(** [async (c, next) => c.error("Unauthorized", 401)] *)
Definition deny : MiddlewareHandler :=
  fun c _ => let '(c', r) := Ctx.error "Unauthorized" 401 [] no_options c in
             (c', Return (Some r)).

(** [new Rest().use("*", logging "outer").use("/api/*", deny)
    .get("/api/users", say "users")] *)
Definition guarded_app : Rest :=
  MkRest [{| route_method := GET; route_path := "/api/users";
             route_handler := Scenario.say "users" |}]
         [{| mw_path := "*"; mw_handler := Scenario.logging "outer" |};
          {| mw_path := "/api/*"; mw_handler := deny |}]
         [] JNull.

(** [new Rest().use("*", logging "first").use("*", logging "second")
    .get("/ping", say "pong")] *)
Definition two_globals_app : Rest :=
  MkRest [{| route_method := GET; route_path := "/ping";
             route_handler := Scenario.say "pong" |}]
         [{| mw_path := "*"; mw_handler := Scenario.logging "first" |};
          {| mw_path := "*"; mw_handler := Scenario.logging "second" |}]
         [] JNull.

(** [new Rest().get("/missing", c => c.notFound())] *)
Definition not_found_app : Rest :=
  MkRest [{| route_method := GET; route_path := "/missing";
             route_handler := Behaviour.not_found_handler |}] [] [] JNull.

End More.

(** ** The constructor of [Route], on the name of the method *)
Module RouteClass.

(** The name is one of ["GET", "POST", "PUT", "DELETE", "PATCH", "OPTIONS"]. *)
Definition method_of_name (name : string) : option RestMethod :=
  find (fun m => String.eqb (method_name m) name) [GET; POST; PUT; DELETE; PATCH; OPTIONS].

(** [new Route(method, path, handler)] with the method given by its name:
    the method is checked first, then the path. *)
Definition constructor (method : string) (path : string) (handler : RestHandler)
  : Completion Route :=
  match method_of_name method with
  | None => Throw (new_Error ("Invalid HTTP method: " +:+ method))
  | Some m => new_Route m path handler
  end.

End RouteClass.

(** ** [schema] (src/utils/schema.utils.js) *)
Module Schema.
Import JsObject.

(** What [safeParse] of the schema returns. *)
Inductive SafeParse : Type :=
  | Success (data : JsVal)
  | Failure (issues : JsVal).

(** The options after the defaults are merged in; [strict] is merged and
    never read. *)
Record SchemaOptions : Type := {
  crossData : JsVal;
  redact : bool
}.

Definition default_options : SchemaOptions := {| crossData := JObj []; redact := false |}.

(** The own properties that a spread [{...value}] copies: those of an
    object, the characters of a text under their indices, nothing else. *)
Fixpoint indexed (i : nat) (s : string) : list (string * JsVal) :=
  match s with
  | "" => []
  | String c r => (pretty i, JStr (String c "")) :: indexed (S i) r
  end.

Definition spread_of (value : JsVal) : list (string * JsVal) :=
  match value with
  | JObj props => props
  | JStr s => indexed 0 s
  | _ => []
  end.

Definition spread_into (target : list (string * JsVal)) (value : JsVal)
  : list (string * JsVal) :=
  fold_left (fun o kv => set_own (fst kv) (snd kv) o) (spread_of value) target.

(** [{ ...(parsed || {}), ...(options.crossData || {}) }] *)
Definition merged (parsed cross : JsVal) : list (string * JsVal) :=
  spread_into (spread_into [] (if truthy parsed then parsed else JObj []))
              (if truthy cross then cross else JObj []).

(** A [Response] as a thrown value: an object on which the only property
    that the modelled code reads, [message], is undefined. *)
Definition thrown_response (r : Response) : JsVal := JObj [].

Section WithRuntime.
Variable URLSearchParams : string -> list (string * string).

(** [schema(c, schema, options)], with [validate] the [safeParse] of the
    schema that the callback returns.  The comparison of the function
    [method.toLowerCase] with ["get"] is always true, so [parse] is awaited
    for every method. *)
Definition schema (validate : JsVal -> SafeParse) (options : SchemaOptions)
    (c : Ctx.Context) : Ctx.Context * Completion JsVal :=
  match Request.parse URLSearchParams (Ctx.request c) with
  | Throw e => (c, Throw e)
  | Return parsed =>
      match validate (JObj (merged parsed (crossData options))) with
      | Failure issues =>
          let details := if redact options then [] else [("issues", issues)] in
          let '(c', r) := Ctx.error "Invalid request data" 400 details no_options c in
          (c', Throw (thrown_response r))
      | Success data => (Ctx.set "data" data c, Return data)
      end
  end.

(** [async c => { const data = await schema(c, ...); return k(data, c) }] *)
Definition validated (validate : JsVal -> SafeParse) (options : SchemaOptions)
    (k : JsVal -> RestHandler) : RestHandler :=
  fun c =>
    match schema validate options c with
    | (c', Return data) => k data c'
    | (c', Throw e) => (c', Throw e)
    end.

End WithRuntime.

End Schema.

(** ** The checks of the CORS middleware (src/utils/schema.utils.js) *)
Module Cors.

(** The configured [origin]: a text, an array, a function, or anything else. *)
Inductive AllowedOrigin : Type :=
  | OriginText (s : string)
  | OriginArray (l : list string)
  | OriginFunction (f : string -> bool)
  | OriginOther.

(** [isOriginAllowed(requestOrigin, allowedOrigin)]; [None] is [false]. *)
Definition isOriginAllowed (requestOrigin : option string) (allowedOrigin : AllowedOrigin)
  : option string :=
  match requestOrigin with
  | None => None
  | Some origin =>
      if String.eqb origin "" then None
      else match allowedOrigin with
           | OriginText s =>
               if String.eqb s "*" then Some "*"
               else if String.eqb s origin then Some origin else None
           | OriginArray l =>
               if existsb (String.eqb origin) l then Some origin else None
           | OriginFunction f => if f origin then Some origin else None
           | OriginOther => None
           end
  end.

(** A configured list: a text or an array of texts. *)
Inductive TextOrArray : Type :=
  | OneText (s : string)
  | ManyTexts (l : list string).

(** [Array.prototype.join] *)
Fixpoint join (sep : string) (l : list string) : string :=
  match l with
  | [] => ""
  | [x] => x
  | x :: rest => x +:+ sep +:+ join sep rest
  end.

(** [toHeaderValue(value)] *)
Definition toHeaderValue (value : TextOrArray) : string :=
  match value with
  | ManyTexts l => join ", " l
  | OneText s => s
  end.

(** [Array.isArray(value) ? value : [value]] *)
Definition as_list (value : TextOrArray) : list string :=
  match value with
  | ManyTexts l => l
  | OneText s => [s]
  end.

(** The white space and line terminators that [trim] removes, among the
    code units modelled. *)
Definition is_space (c : ascii) : bool :=
  existsb (Ascii.eqb c) ["009"; "010"; "011"; "012"; "013"; " "; "160"]%char.

Fixpoint trim_start (s : string) : string :=
  match s with
  | "" => ""
  | String c r => if is_space c then trim_start r else s
  end.

Fixpoint trim_end (s : string) : string :=
  match s with
  | "" => ""
  | String c r =>
      match trim_end r with
      | "" => if is_space c then "" else String c ""
      | r' => String c r'
      end
  end.

Definition trim (s : string) : string := trim_end (trim_start s).

(** The requested headers that no allowed header matches, case apart. *)
Definition forbiddenHeaders (requestedHeaders : string) (allowedHeaders : TextOrArray)
  : list string :=
  List.filter
    (fun h => negb (existsb (fun allowed =>
                               String.eqb (JsString.toLowerCase allowed)
                                          (JsString.toLowerCase h))
                            (as_list allowedHeaders)))
    (map trim (JsString.split "," requestedHeaders)).

(** The part of the configuration that the checks read. *)
Record Config : Type := {
  origin : AllowedOrigin;
  methods : TextOrArray;
  allowedHeaders : TextOrArray
}.

(** The checks of the branch for [OPTIONS] requests, in the order of the
    source: the message and the status given to [c.error] by the first check
    that fails, [None] when all pass.  The branch is reached when
    [exposedHeaders] has a length, as the default has.  The arguments are what
    the request gives for [Origin], [Access-Control-Request-Method] and
    [Access-Control-Request-Headers]. *)
Definition preflight_refusal (config : Config)
    (requestOrigin requestedMethod requestedHeaders : option string)
  : option (string * Z) :=
  match isOriginAllowed requestOrigin (origin config) with
  | None => Some ("CORS: Origin not allowed", 403%Z)
  | Some _ =>
      let method_refused :=
        match requestedMethod with
        | Some m =>
            negb (String.eqb m "")
            && negb (existsb (String.eqb m) (as_list (methods config)))
        | None => false
        end in
      if method_refused then Some ("CORS: Method not allowed", 405%Z)
      else
        match requestedHeaders with
        | Some hs =>
            if String.eqb hs "" then None
            else match forbiddenHeaders hs (allowedHeaders config) with
                 | [] => None
                 | forbidden =>
                     Some ("CORS: Headers not allowed: " +:+ join ", " forbidden, 403%Z)
                 end
        | None => None
        end
  end.

(** [corsPresets.permissive] and [corsPresets.strict], as far as the checks
    read them. *)
Definition permissive : Config :=
  {| origin := OriginText "*";
     methods := ManyTexts ["GET"; "POST"; "PUT"; "DELETE"; "PATCH"; "OPTIONS"; "HEAD"];
     allowedHeaders := ManyTexts ["*"] |}.

Definition strict : Config :=
  {| origin := OriginArray [];
     methods := ManyTexts ["GET"; "POST"];
     allowedHeaders := ManyTexts ["Content-Type"; "Authorization"] |}.

End Cors.
(** * Properties *)

(** ** Strings *)
#[global] Arguments String.append !s1 s2 : simpl nomatch.

Section Strings.

Lemma append_nil_r (s : string) : s +:+ "" = s.
Proof. induction s as [|c s IH]; simpl; [reflexivity|]. now rewrite IH. Qed.

Lemma append_assoc (s1 s2 s3 : string) : (s1 +:+ s2) +:+ s3 = s1 +:+ (s2 +:+ s3).
Proof. induction s1 as [|c s1 IH]; simpl; [reflexivity|]. now rewrite IH. Qed.

Lemma append_eq_nil (s1 s2 : string) : s1 +:+ s2 = "" -> s1 = "" /\ s2 = "".
Proof. destruct s1; simpl; [auto|discriminate]. Qed.

Lemma append_eq_cons (s1 s2 : string) c s :
  s1 +:+ s2 = String c s ->
  (s1 = "" /\ s2 = String c s) \/ (exists s1', s1 = String c s1' /\ s = s1' +:+ s2).
Proof.
  destruct s1 as [|d s1]; simpl; intros H; [left; auto|].
  injection H as -> <-. right. eauto.
Qed.

Lemma all_chars_append p s1 s2 :
  Claimed.all_chars p (s1 +:+ s2) = Claimed.all_chars p s1 && Claimed.all_chars p s2.
Proof.
  induction s1 as [|c s1 IH]; simpl; [reflexivity|].
  now rewrite IH, andb_assoc.
Qed.

End Strings.

(** ** Path normalisation *)

(** C6.  Normalisation is not idempotent, and the route table loses the root:
    one pass over pairs of slashes turns [/a///b] into [/a//b], which a
    second normalisation turns into [/a/b]; and [getRoutes] turns the root
    path [/] into the empty string, while the helper of the middleware view
    keeps it. *)
Theorem normalize_twice_differs :
  normalizePath "/a///b" = "/a//b"
  /\ normalizePath (normalizePath "/a///b") = "/a/b"
  /\ route_path_of "/a///b" = "/a//b"
  /\ route_path_of (route_path_of "/a///b") = "/a/b"
  /\ route_path_of "/" = ""
  /\ normalizePath "/" = "/".
Proof. repeat split; reflexivity. Qed.

(** ** Where normalisation is idempotent *)
Section Idempotence.
Import JsString Claimed.

Lemma string_pair_ind (P : string -> Prop) :
  P "" -> (forall c, P (String c "")) ->
  (forall c d r, P r -> P (String d r) -> P (String c (String d r))) ->
  forall s, P s.
Proof.
  intros Hnil Hone Hstep s.
  assert (P s /\ forall c, P (String c s)) as [H _]; [|exact H].
  induction s as [|d r [IHr IHdr]]; split; auto.
Qed.

Lemma no_triple_slash_tail c s : no_triple_slash (String c s) = true -> no_triple_slash s = true.
Proof.
  destruct s as [|d [|e r]]; try reflexivity.
  cbn [no_triple_slash]. intros H. now apply andb_prop in H as [_ H].
Qed.

Lemma no_double_slash_cons c d t :
  no_double_slash (String c (String d t))
  = negb (is_slash c && is_slash d) && no_double_slash (String d t).
Proof. reflexivity. Qed.

Lemma replace_double_slash_cons c d r :
  replace_double_slash (String c (String d r))
  = if is_slash c && is_slash d then String "/" (replace_double_slash r)
    else String c (replace_double_slash (String d r)).
Proof. reflexivity. Qed.

Lemma replace_double_slash_collapses s :
  no_triple_slash s = true ->
  no_double_slash (replace_double_slash s) = true
  /\ starts_with is_slash (replace_double_slash s) = starts_with is_slash s.
Proof.
  induction s as [|c|c d r IHr IHdr] using string_pair_ind; intros Hnt; [auto|auto|].
  pose proof (no_triple_slash_tail _ _ Hnt) as Hdr.
  pose proof (no_triple_slash_tail _ _ Hdr) as Hr.
  destruct (IHr Hr) as [IHr1 IHr2]. destruct (IHdr Hdr) as [IHdr1 IHdr2].
  rewrite replace_double_slash_cons.
  destruct (is_slash c && is_slash d) eqn:Hboth.
  - apply andb_prop in Hboth as [Hc Hd]. split; [|simpl; now rewrite Hc].
    assert (starts_with is_slash r = false) as Hhead.
    { destruct r as [|e r']; [reflexivity|]. cbn [no_triple_slash] in Hnt.
      rewrite Hc, Hd in Hnt. simpl in Hnt |- *.
      apply andb_prop in Hnt as [Hnt _]. now apply negb_true_iff in Hnt. }
    rewrite <- IHr2 in Hhead.
    destruct (replace_double_slash r) as [|x t]; [reflexivity|].
    rewrite no_double_slash_cons. simpl in Hhead. rewrite Hhead, andb_false_r. exact IHr1.
  - split; [|reflexivity].
    destruct (replace_double_slash (String d r)) as [|x t]; [reflexivity|].
    rewrite no_double_slash_cons. simpl in IHdr2. rewrite IHdr2, Hboth. exact IHdr1.
Qed.

Lemma replace_double_slash_fixed s :
  no_double_slash s = true -> replace_double_slash s = s.
Proof.
  induction s as [|c s IH]; [reflexivity|].
  destruct s as [|d r]; [reflexivity|].
  rewrite no_double_slash_cons. intros H.
  apply andb_prop in H as [Hcd Hrest]. apply negb_true_iff in Hcd.
  rewrite replace_double_slash_cons. now rewrite Hcd, IH.
Qed.

Lemma strip_trailing_slash_head d r :
  strip_trailing_slash (String d r) = ""
  \/ exists t, strip_trailing_slash (String d r) = String d t.
Proof.
  destruct r as [|e r]; simpl; [|eauto].
  destruct (is_slash d); eauto.
Qed.

Lemma strip_trailing_slash_no_double s :
  no_double_slash s = true -> no_double_slash (strip_trailing_slash s) = true.
Proof.
  induction s as [|c s IH]; [reflexivity|].
  destruct s as [|d r]; [simpl; now destruct (is_slash c)|].
  rewrite no_double_slash_cons. intros H. apply andb_prop in H as [Hcd Hrest].
  change (strip_trailing_slash (String c (String d r)))
    with (String c (strip_trailing_slash (String d r))).
  specialize (IH Hrest).
  destruct (strip_trailing_slash_head d r) as [->|[t Ht]]; [reflexivity|].
  rewrite Ht in IH |- *. rewrite no_double_slash_cons. now rewrite Hcd.
Qed.

Lemma strip_trailing_slash_fixed s :
  no_double_slash s = true ->
  strip_trailing_slash (strip_trailing_slash s) = strip_trailing_slash s.
Proof.
  induction s as [|c s IH]; [reflexivity|].
  destruct s as [|d r]; [simpl; destruct (is_slash c) eqn:E; simpl; now rewrite ?E|].
  rewrite no_double_slash_cons. intros H. apply andb_prop in H as [Hcd Hrest].
  change (strip_trailing_slash (String c (String d r)))
    with (String c (strip_trailing_slash (String d r))).
  specialize (IH Hrest).
  destruct (strip_trailing_slash (String d r)) as [|x t] eqn:Hu.
  - assert (is_slash d = true) as Hd.
    { destruct r as [|e r']; simpl in Hu; [|discriminate].
      destruct (is_slash d); [reflexivity|discriminate]. }
    rewrite Hd, andb_true_r in Hcd. apply negb_true_iff in Hcd.
    simpl. now rewrite Hcd.
  - change (strip_trailing_slash (String c (String x t)))
      with (String c (strip_trailing_slash (String x t))).
    now rewrite IH.
Qed.

(** On a path without three slashes in a row one normalisation reaches a
    fixed point, for both normalisations. *)
Lemma route_path_of_idempotent (p : string) :
  no_triple_slash p = true -> route_path_of (route_path_of p) = route_path_of p.
Proof.
  intros H. unfold route_path_of.
  destruct (replace_double_slash_collapses p H) as [Hnd _].
  pose proof (strip_trailing_slash_no_double _ Hnd) as Hnd'.
  rewrite (replace_double_slash_fixed _ Hnd').
  now apply strip_trailing_slash_fixed.
Qed.

Lemma normalizePath_idempotent (p : string) :
  no_triple_slash p = true -> normalizePath (normalizePath p) = normalizePath p.
Proof.
  intros H. pose proof (route_path_of_idempotent p H) as Hidem.
  unfold normalizePath, route_path_of in *.
  destruct (strip_trailing_slash (replace_double_slash p)) as [|c t] eqn:E; [reflexivity|].
  now rewrite Hidem.
Qed.

End Idempotence.

(** ** The [fetch] entry point *)

(** C3.  The function that the getter [fetch] returns answers every request
    with the plain 404 response, whatever routes are registered. *)
Theorem fetch_is_not_found :
  RestApp.get "/" Scenario.hello RestApp.new_Rest = Return Scenario.hello_app
  /\ RestApp.fetch Scenario.hello_app (Scenario.get_request "/")
     = Return {| status := 404; headers := []; body := BodyText "Not found" |}
  /\ forall app request,
       RestApp.fetch app request
       = Return {| status := 404; headers := []; body := BodyText "Not found" |}.
Proof. repeat split; reflexivity. Qed.

(** The dispatch table of the same application does hold the route, under
    the path that [getRoutes] makes of [/], and its dispatch function gives
    the JSON response; nothing connects [fetch] to it. *)
Example hello_app_table :
  lookup_dispatch (RestApp.routes Scenario.hello_app) "/" "GET" = None
  /\ (fun f : DispatchFn => f (Scenario.get_request "/"))
       <$> lookup_dispatch (RestApp.routes Scenario.hello_app) "" "GET"
     = Some (Return {| status := 200;
                       headers := [("Content-Type", "application/json")];
                       body := BodyJson (JObj [("message", JStr "Hello")]) |}).
Proof. split; reflexivity. Qed.

(** ** The service slot *)

(** C9.  While the service slot holds no (truthy) service, the getter
    [service] throws "Service not set", and so does the accessor of every
    context of the application: the fallback to [null] is never reached. *)
Theorem service_not_set_throws (app : Rest) :
  JsObject.truthy (RestApp.service_slot app) = false ->
  RestApp.service app = Throw (new_Error "Service not set")
  /\ forall c : Ctx.Context,
       Ctx.rest c = Some (RestApp.service_slot app) ->
       RestApp.Context_service c = Throw (new_Error "Service not set").
Proof.
  intros Hfalsy. split.
  - unfold RestApp.service, RestApp.read_service. now rewrite Hfalsy.
  - intros c Hrest. unfold RestApp.Context_service, RestApp.read_service.
    rewrite Hrest, Hfalsy. reflexivity.
Qed.

Lemma service_not_set_throws_witness :
  RestApp.service RestApp.new_Rest = Throw (new_Error "Service not set")
  /\ forall c : Ctx.Context,
       Ctx.rest c = Some (RestApp.service_slot RestApp.new_Rest) ->
       RestApp.Context_service c = Throw (new_Error "Service not set").
Proof. apply (service_not_set_throws RestApp.new_Rest). reflexivity. Defined.

(** The context that the dispatch function creates is one of them. *)
Lemma new_Context_service_throws (app : Rest) (request : Request.RawRequest) :
  JsObject.truthy (RestApp.service_slot app) = false ->
  RestApp.Context_service (RestApp.new_Context request app)
  = Throw (new_Error "Service not set").
Proof.
  intros Hfalsy. unfold RestApp.Context_service, RestApp.read_service. simpl.
  now rewrite Hfalsy.
Qed.

(** A context built without an application falls back to [null]. *)
Lemma Context_service_without_rest (c : Ctx.Context) :
  Ctx.rest c = None -> RestApp.Context_service c = Return JNull.
Proof. intros H. unfold RestApp.Context_service. now rewrite H. Qed.

(** ** Body parsing *)

(** C8.  With a multipart content type and a body that cannot be read as
    form data, [formData] resolves to [null] and [parse] then throws a
    [TypeError] instead of resolving to [null]. *)
Theorem parse_multipart_unreadable_throws :
  forall URLSearchParams,
    Request.formData Scenario.multipart_unreadable = None
    /\ Request.parse URLSearchParams Scenario.multipart_unreadable
       = Throw (TypeError "null has no property entries").
Proof. intros usp. split; reflexivity. Qed.

(** X21.  Outside the two form branches [parse] never throws: a JSON or text body
    that cannot be read, an absent content type and an unsupported one all
    resolve, to [null] or to the data. *)
Lemma parse_resolves_outside_forms URLSearchParams (raw : Request.RawRequest) :
  let contentType :=
    match Request.raw_content_type raw with
    | Some s => JsString.toLowerCase s
    | None => ""
    end in
  JsString.includes "application/json" contentType = true
  \/ (JsString.includes "application/x-www-form-urlencoded" contentType = false
      /\ JsString.includes "multipart/form-data" contentType = false) ->
  exists v, Request.parse URLSearchParams raw = Return v.
Proof.
  intros contentType H. unfold Request.parse. fold contentType.
  destruct (String.eqb contentType ""); [eauto|].
  destruct H as [->|[-> ->]]; [eauto|].
  destruct (JsString.includes "application/json" contentType); [eauto|].
  destruct (JsString.includes "text/plain" contentType); eauto.
Qed.

Example parse_unreadable_json_is_null URLSearchParams :
  Request.parse URLSearchParams
    {| Request.raw_method := "POST"; Request.raw_pathname := "/users";
       Request.raw_content_type := Some "application/json";
       Request.raw_json := Throw (new_Error "Unexpected token");
       Request.raw_text := Return "{";
       Request.raw_formData := Throw (TypeError "not a form") |}
  = Return JNull.
Proof. reflexivity. Qed.

(** ** Registration *)
Section Registration.
Import RestApp.

Lemma getRoutes_unfold (app : Rest) :
  getRoutes app
  = map own_entry (own_routes app)
    ++ flat_map (fun m => map (mounted_entry (fst m)) (getRoutes (snd m))) (mounts app).
Proof.
  destruct app as [rs ms mts s]. simpl. f_equal.
  induction mts as [|[p c] mts IH]; simpl; [reflexivity|]. now rewrite IH.
Qed.

Lemma getRoutes_mount (prefix : string) (child app : Rest) :
  getRoutes (mount prefix child app)
  = getRoutes app ++ map (mounted_entry prefix) (getRoutes child).
Proof.
  rewrite (getRoutes_unfold (mount prefix child app)), (getRoutes_unfold app).
  destruct app as [rs ms mts s]. simpl.
  rewrite flat_map_app. simpl. rewrite app_nil_r, app_assoc. reflexivity.
Qed.

Lemma find_append {A} (f : A -> bool) (l1 l2 : list A) :
  find f (l1 ++ l2) = match find f l1 with Some x => Some x | None => find f l2 end.
Proof.
  induction l1 as [|x l1 IH]; simpl; [reflexivity|]. now destruct (f x).
Qed.

Lemma find_same_route_Some method path rs r :
  find (same_route method path) rs = Some r ->
  In r rs /\ route_method r = method /\ route_path r = path.
Proof.
  intros H. apply find_some in H as [Hin Hsame]. split; [exact Hin|].
  unfold same_route in Hsame. apply andb_prop in Hsame as [Hm Hp].
  apply bool_decide_eq_true in Hm. apply String.eqb_eq in Hp. auto.
Qed.

Lemma same_route_refl (r : Route) :
  same_route (route_method r) (route_path r) r = true.
Proof.
  unfold same_route. rewrite String.eqb_refl, andb_true_r.
  now apply bool_decide_eq_true.
Qed.

(** What [register] does, from the application's own table alone. *)
Lemma register_spec method path handler (app : Rest) :
  register method path handler app
  = if String.eqb path "" then Throw (new_Error ("Invalid path: " +:+ path))
    else match find (same_route method path) (own_routes app) with
         | Some _ => Throw (duplicate_error method path)
         | None =>
             Return (MkRest (own_routes app
                             ++ [{| route_method := method; route_path := path;
                                    route_handler := handler |}])
                            (own_middlewares app) (mounts app) (service_slot app))
         end.
Proof.
  unfold register, new_Route. destruct (String.eqb path ""); [reflexivity|].
  destruct app as [rs ms mts s]. simpl. unfold mbind, Completion_bind. simpl.
  destruct (find _ rs); reflexivity.
Qed.

Lemma register_Return_inv method path handler (app app' : Rest) :
  register method path handler app = Return app' ->
  String.eqb path "" = false
  /\ find (same_route method path) (own_routes app) = None
  /\ app' = MkRest (own_routes app
                    ++ [{| route_method := method; route_path := path;
                           route_handler := handler |}])
                   (own_middlewares app) (mounts app) (service_slot app).
Proof.
  rewrite register_spec. destruct (String.eqb path ""); [discriminate|].
  destruct (find _ _); [discriminate|]. intros [= <-]. auto.
Qed.

Lemma use_spec paths handler (app : Rest) :
  use paths handler app
  = MkRest (own_routes app)
           (own_middlewares app
            ++ map (fun path => {| mw_path := path; mw_handler := handler |}) paths)
           (mounts app) (service_slot app).
Proof.
  unfold use. revert app. induction paths as [|p paths IH]; intros [rs ms mts s]; simpl.
  - now rewrite app_nil_r.
  - rewrite IH. simpl. now rewrite <- app_assoc.
Qed.

Lemma after_own_routes call (app : Rest) :
  own_routes (Setup.after call app) = own_routes app
  \/ exists r, own_routes (Setup.after call app) = own_routes app ++ [r]
               /\ route_path r <> ""
               /\ ~ In (Setup.route_key r) (map Setup.route_key (own_routes app)).
Proof.
  destruct call as [method path handler|paths handler|path child|value]; simpl.
  - destruct (register method path handler app) as [app'|e] eqn:E; [|now left].
    apply register_Return_inv in E as (Hpath & Hfresh & ->). right.
    eexists. split; [reflexivity|]. simpl. split.
    + now apply String.eqb_neq.
    + intros Hin. apply in_map_iff in Hin as (r & Hkey & Hr).
      pose proof (find_none _ _ Hfresh r Hr) as Hsame.
      unfold Setup.route_key in Hkey. simpl in Hkey. injection Hkey as Hm Hp.
      unfold same_route in Hsame. rewrite Hp, String.eqb_refl, andb_true_r in Hsame.
      apply bool_decide_eq_false in Hsame. contradiction.
  - left. now rewrite use_spec.
  - left. now destruct app.
  - left. destruct app as [rs ms mts s]. simpl. now destruct (JsObject.truthy s).
Qed.

Lemma after_all_keeps_routes calls (app : Rest) r :
  In r (own_routes app) -> In r (own_routes (Setup.after_all calls app)).
Proof.
  unfold Setup.after_all. revert app.
  induction calls as [|call calls IH]; intros app Hin; simpl; [exact Hin|].
  apply IH. destruct (after_own_routes call app) as [->|(r' & -> & _)]; [exact Hin|].
  apply in_or_app. now left.
Qed.

Lemma register_held_throws method path handler (app : Rest) :
  path <> "" ->
  (exists r, In r (own_routes app) /\ route_method r = method /\ route_path r = path) ->
  register method path handler app = Throw (duplicate_error method path).
Proof.
  intros Hpath (r & Hin & Hm & Hp). rewrite register_spec.
  destruct (String.eqb_spec path "") as [|_]; [contradiction|].
  destruct (find (same_route method path) (own_routes app)) eqn:Hfind; [reflexivity|].
  exfalso. pose proof (find_none _ _ Hfind r Hin) as Hnone.
  rewrite <- Hm, <- Hp, same_route_refl in Hnone. discriminate.
Qed.

(** C5, as the code has it.  Once a route is registered, registering the
    same method and the same path text again fails with the duplicate error
    on every application that holds such a route, wherever it stands in the
    table, whatever the handler, and so also after any number of other
    registrations, since the table only grows by appending; the check reads
    the application's own table only, so the same method and path registered
    on another application succeeds whenever that application does not hold
    it yet, and when both are mounted each route appears in the flattened
    view under its own prefix. *)
Theorem duplicate_route_is_local method path handler handler' (app app' : Rest) :
  register method path handler app = Return app' ->
  (forall later : Rest,
      (exists r, In r (own_routes later)
                 /\ route_method r = method /\ route_path r = path) ->
      register method path handler' later = Throw (duplicate_error method path))
  /\ (forall calls : list Setup.Call,
         register method path handler' (Setup.after_all calls app')
         = Throw (duplicate_error method path))
  /\ register method path handler' app' = Throw (duplicate_error method path)
  /\ forall other : Rest,
       find (same_route method path) (own_routes other) = None ->
       exists other',
         register method path handler' other = Return other'
         /\ forall (parent : Rest) (prefix prefix' : string),
              let flat := getRoutes (mount prefix' other' (mount prefix app' parent)) in
              In (mounted_entry prefix
                    (own_entry {| route_method := method; route_path := path;
                                  route_handler := handler |})) flat
              /\ In (mounted_entry prefix'
                       (own_entry {| route_method := method; route_path := path;
                                     route_handler := handler' |})) flat.
Proof.
  intros Hreg. apply register_Return_inv in Hreg as (Hpath & Hfresh & ->).
  assert (path <> "") as Hne by (now apply String.eqb_neq).
  set (first := {| route_method := method; route_path := path;
                   route_handler := handler |}).
  set (app' := MkRest (own_routes app ++ [first]) (own_middlewares app) (mounts app)
                      (service_slot app)).
  assert (In first (own_routes app')) as Hheld.
  { simpl. apply in_or_app. right. now left. }
  split; [|split; [|split]].
  - intros later Hlater. now apply register_held_throws.
  - intros calls. apply register_held_throws; [exact Hne|].
    exists first. split; [|split; reflexivity].
    apply (after_all_keeps_routes calls app' first Hheld).
  - apply register_held_throws; [exact Hne|]. exists first. auto.
  - intros other Hother. eexists. split.
    + rewrite register_spec, Hpath, Hother. reflexivity.
    + intros parent prefix prefix'. simpl.
      rewrite !getRoutes_mount. split.
      * apply in_or_app. left. apply in_or_app. right.
        apply in_map. rewrite getRoutes_unfold. simpl.
        apply in_or_app. left. rewrite map_app. apply in_or_app. right.
        simpl. now left.
      * apply in_or_app. right.
        apply in_map. rewrite getRoutes_unfold. simpl.
        apply in_or_app. left. rewrite map_app. apply in_or_app. right.
        simpl. now left.
Qed.

End Registration.

Lemma duplicate_route_is_local_witness :
  (forall later : Rest,
      (exists r, In r (RestApp.own_routes later)
                 /\ route_method r = GET /\ route_path r = "/a") ->
      RestApp.register GET "/a" (Scenario.say "second") later
      = Throw (duplicate_error GET "/a"))
  /\ (forall calls : list Setup.Call,
         RestApp.register GET "/a" (Scenario.say "second")
           (Setup.after_all calls
              (MkRest [{| route_method := GET; route_path := "/a";
                          route_handler := Scenario.say "first" |}] [] [] JNull))
         = Throw (duplicate_error GET "/a"))
  /\ RestApp.register GET "/a" (Scenario.say "second")
       (MkRest [{| route_method := GET; route_path := "/a";
                   route_handler := Scenario.say "first" |}] [] [] JNull)
     = Throw (duplicate_error GET "/a")
  /\ forall other : Rest,
       find (RestApp.same_route GET "/a") (RestApp.own_routes other) = None ->
       exists other',
         RestApp.register GET "/a" (Scenario.say "second") other = Return other'
         /\ forall (parent : Rest) (prefix prefix' : string),
              let flat :=
                RestApp.getRoutes
                  (RestApp.mount prefix' other'
                     (RestApp.mount prefix
                        (MkRest [{| route_method := GET; route_path := "/a";
                                    route_handler := Scenario.say "first" |}] [] [] JNull)
                        parent)) in
              In (mounted_entry prefix
                    (own_entry {| route_method := GET; route_path := "/a";
                                  route_handler := Scenario.say "first" |})) flat
              /\ In (mounted_entry prefix'
                       (own_entry {| route_method := GET; route_path := "/a";
                                     route_handler := Scenario.say "second" |})) flat.
Proof.
  apply (duplicate_route_is_local GET "/a" (Scenario.say "first") (Scenario.say "second")
           RestApp.new_Rest).
  reflexivity.
Defined.

(** C5, where it fails: [/a] and [/a/] normalise to the same path, and yet
    [GET /a/] is accepted after [GET /a] on the same application. *)
Lemma trailing_slash_variant_is_accepted :
  route_path_of "/a" = route_path_of "/a/"
  /\ normalizePath "/a" = normalizePath "/a/"
  /\ exists app' : Rest,
       RestApp.get "/a" (Scenario.say "first") RestApp.new_Rest = Return app'
       /\ RestApp.get "/a/" (Scenario.say "second") app' = Return Scenario.slash_variants_app.
Proof.
  split; [reflexivity|]. split; [reflexivity|].
  eexists. split; reflexivity.
Qed.

(** ** The dispatch table *)
Section DispatchTable.
Import RestApp.

Lemma is_entry_for_true path method route :
  is_entry_for path method route = true <->
  fr_path route = path /\ fr_method route = method.
Proof.
  unfold is_entry_for. rewrite andb_true_iff, !String.eqb_eq. reflexivity.
Qed.

Lemma routes_unfold (app : Rest) :
  routes app = fold_left (add_dispatch app) (getRoutes app) ∅.
Proof. reflexivity. Qed.

Lemma lookup_add_dispatch app table route path method :
  lookup_dispatch (add_dispatch app table route) path method
  = if is_entry_for path method route
    then Some (dispatch app (chain app route))
    else lookup_dispatch table path method.
Proof.
  unfold lookup_dispatch, add_dispatch, is_entry_for.
  destruct (String.eqb_spec (fr_path route) path) as [<-|Hp]; simpl.
  - rewrite lookup_insert_eq. simpl.
    destruct (String.eqb_spec (fr_method route) method) as [<-|Hm].
    + now rewrite lookup_insert_eq.
    + rewrite lookup_insert_ne by exact Hm.
      destruct (table !! fr_path route); simpl; [reflexivity|].
      now rewrite lookup_empty.
  - now rewrite lookup_insert_ne by exact Hp.
Qed.

(** The table holds, for a path and a method, the dispatch function of the
    last flattened route with this path and this method. *)
Lemma lookup_fold_add_dispatch app (l : list FlatRoute) table path method :
  lookup_dispatch (fold_left (add_dispatch app) l table) path method
  = match find (is_entry_for path method) (rev l) with
    | Some route => Some (dispatch app (chain app route))
    | None => lookup_dispatch table path method
    end.
Proof.
  revert table. induction l as [|r l IH]; intros table; simpl; [reflexivity|].
  rewrite IH, find_append. destruct (find _ (rev l)); [reflexivity|].
  simpl. rewrite lookup_add_dispatch. now destruct (is_entry_for path method r).
Qed.

Lemma lookup_routes app path method :
  lookup_dispatch (routes app) path method
  = (fun route => dispatch app (chain app route))
      <$> find (is_entry_for path method) (rev (getRoutes app)).
Proof.
  rewrite routes_unfold, lookup_fold_add_dispatch.
  destruct (find _ _); reflexivity.
Qed.

(** Building the table cannot fail, and every flattened route finds a
    dispatch function under its path and method. *)
Lemma routes_total app route :
  In route (getRoutes app) ->
  is_Some (lookup_dispatch (routes app) (fr_path route) (fr_method route)).
Proof.
  intros Hin. rewrite lookup_routes.
  destruct (find _ _) as [r|] eqn:E; [eexists; reflexivity|].
  apply in_rev in Hin.
  pose proof (find_none _ _ E route Hin) as Hnone.
  assert (is_entry_for (fr_path route) (fr_method route) route = true)
    by now apply is_entry_for_true.
  congruence.
Qed.

(** C10.  When two flattened routes have the same path and the same method
    and no later route has them, the table is built all the same and holds
    the dispatch function of the later of the two. *)
Theorem last_route_wins (app : Rest) before r1 between r2 after :
  getRoutes app = before ++ r1 :: between ++ r2 :: after ->
  fr_path r1 = fr_path r2 ->
  fr_method r1 = fr_method r2 ->
  (forall r, In r after -> is_entry_for (fr_path r2) (fr_method r2) r = false) ->
  lookup_dispatch (routes app) (fr_path r2) (fr_method r2)
  = Some (dispatch app (chain app r2)).
Proof.
  intros Hflat _ _ Hafter. rewrite lookup_routes, Hflat.
  replace (before ++ r1 :: between ++ r2 :: after)
    with ((before ++ r1 :: between) ++ r2 :: after)
    by (rewrite <- app_assoc; reflexivity).
  rewrite rev_app_distr. simpl. rewrite <- app_assoc, find_append.
  destruct (find _ (rev after)) as [r|] eqn:E.
  - apply find_some in E as [Hin Hr]. apply in_rev in Hin.
    rewrite (Hafter r Hin) in Hr. discriminate.
  - simpl. assert (is_entry_for (fr_path r2) (fr_method r2) r2 = true) as ->
      by now apply is_entry_for_true.
    reflexivity.
Qed.

End DispatchTable.

Lemma last_route_wins_witness :
  lookup_dispatch (RestApp.routes Scenario.slash_variants_app) "/a" "GET"
  = Some (RestApp.dispatch Scenario.slash_variants_app
            (RestApp.chain Scenario.slash_variants_app
               (own_entry {| route_method := GET; route_path := "/a/";
                             route_handler := Scenario.say "second" |}))).
Proof.
  apply (last_route_wins Scenario.slash_variants_app []
           (own_entry {| route_method := GET; route_path := "/a";
                         route_handler := Scenario.say "first" |})
           []
           (own_entry {| route_method := GET; route_path := "/a/";
                         route_handler := Scenario.say "second" |})
           []).
  - reflexivity.
  - reflexivity.
  - reflexivity.
  - intros r [].
Defined.

(** The request [GET /a] is answered by the route registered as [/a/]. *)
Example slash_variants_answer :
  (fun f : DispatchFn => f (Scenario.get_request "/a"))
    <$> lookup_dispatch (RestApp.routes Scenario.slash_variants_app) "/a" "GET"
  = Some (Return {| status := 200;
                    headers := [("Content-Type", "text/plain")];
                    body := BodyText "second" |}).
Proof. rewrite lookup_routes. reflexivity. Qed.

(** Two children mounted at [/api] with the same route: the table is built
    and [GET /api/x] is answered by the child mounted last. *)
Example twins_answer :
  map (fun r => (fr_path r, fr_method r)) (RestApp.getRoutes Scenario.twins_app)
  = [("/api/x", "GET"); ("/api/x", "GET")]
  /\ (fun f : DispatchFn => f (Scenario.get_request "/api/x"))
       <$> lookup_dispatch (RestApp.routes Scenario.twins_app) "/api/x" "GET"
     = Some (Return {| status := 200;
                       headers := [("Content-Type", "text/plain")];
                       body := BodyText "second" |}).
Proof. split; [reflexivity|]. rewrite lookup_routes. reflexivity. Qed.

(** ** The dispatch function *)
Section Dispatch.
Import RestApp.

Lemma dispatch_catch_recorded context error r :
  Ctx.response context = Some r -> dispatch_catch context error = Return r.
Proof. intros H. unfold dispatch_catch. now rewrite H. Qed.

Lemma dispatch_catch_synthesized context error :
  Ctx.response context = None ->
  error <> JNull -> error <> JUndefined ->
  dispatch_catch context error
  = Return (internal_error (JsObject.get_prop error "message")).
Proof.
  intros H Hnull Hundef. unfold dispatch_catch. rewrite H.
  destruct error; try reflexivity; congruence.
Qed.

(** C1, as the code has it.  Every dispatch function of the table belongs
    to a flattened route with that path and method, and on every request:
    a response recorded in the context at the end of the chain is returned,
    whether the chain completed or threw; a chain that completes without a
    recorded response yields the synthesized 500 response with the message
    "No response set in context"; and a chain that throws a value other
    than null or undefined without a recorded response yields the 500
    response [{error: "Internal Server Error", message}] carrying the
    [message] property of the thrown value. *)
Theorem dispatch_answers (app : Rest) path method of_path (f : DispatchFn) :
  routes app !! path = Some of_path ->
  of_path !! method = Some f ->
  exists route,
    In route (getRoutes app)
    /\ fr_path route = path /\ fr_method route = method
    /\ forall request,
         match chain app route (new_Context request app) with
         | (context, completion) =>
             match Ctx.response context, completion with
             | Some r, _ => f request = Return r
             | None, Return _ =>
                 f request = Return (internal_error (JStr "No response set in context"))
             | None, Throw error =>
                 error <> JNull -> error <> JUndefined ->
                 f request = Return (internal_error (JsObject.get_prop error "message"))
             end
         end.
Proof.
  intros Hpath Hmethod.
  assert (lookup_dispatch (routes app) path method = Some f) as Hlook.
  { unfold lookup_dispatch. rewrite Hpath. exact Hmethod. }
  rewrite lookup_routes in Hlook.
  destruct (find _ _) as [route|] eqn:Hfind; [|discriminate].
  simpl in Hlook. injection Hlook as <-.
  apply find_some in Hfind as [Hin Hentry].
  apply in_rev in Hin. apply is_entry_for_true in Hentry as [Hp Hm].
  exists route. repeat split; try assumption.
  intros request. unfold dispatch.
  destruct (chain app route (new_Context request app)) as [context completion].
  destruct (Ctx.response context) as [r|] eqn:Hresp.
  - destruct completion; [reflexivity|]. now apply dispatch_catch_recorded.
  - destruct completion as [v|error].
    + now apply dispatch_catch_synthesized.
    + intros Hnull Hundef. now apply dispatch_catch_synthesized.
Qed.

End Dispatch.

Lemma dispatch_answers_witness :
  exists route,
    In route (RestApp.getRoutes Scenario.boom_app)
    /\ fr_path route = "" /\ fr_method route = "GET"
    /\ forall request,
         match RestApp.chain Scenario.boom_app route
                 (RestApp.new_Context request Scenario.boom_app) with
         | (context, completion) =>
             match Ctx.response context, completion with
             | Some r, _ =>
                 RestApp.dispatch Scenario.boom_app
                   (RestApp.chain Scenario.boom_app
                      (own_entry {| route_method := GET; route_path := "/";
                                    route_handler := Scenario.boom |})) request
                 = Return r
             | None, Return _ =>
                 RestApp.dispatch Scenario.boom_app
                   (RestApp.chain Scenario.boom_app
                      (own_entry {| route_method := GET; route_path := "/";
                                    route_handler := Scenario.boom |})) request
                 = Return (internal_error (JStr "No response set in context"))
             | None, Throw error =>
                 error <> JNull -> error <> JUndefined ->
                 RestApp.dispatch Scenario.boom_app
                   (RestApp.chain Scenario.boom_app
                      (own_entry {| route_method := GET; route_path := "/";
                                    route_handler := Scenario.boom |})) request
                 = Return (internal_error (JsObject.get_prop error "message"))
             end
         end.
Proof.
  apply (dispatch_answers Scenario.boom_app "" "GET"
           {["GET" := RestApp.dispatch Scenario.boom_app
                        (RestApp.chain Scenario.boom_app
                           (own_entry {| route_method := GET; route_path := "/";
                                         route_handler := Scenario.boom |}))]}).
  - reflexivity.
  - reflexivity.
Defined.

(** C1, where it fails: the handler of [GET /] throws [new Error("boom")]
    and records no response; the dispatch function answers 500 with the body
    [{error: "Internal Server Error", message: "boom"}], whose [error] is a
    string and not an object [{message, status, ...details}]. *)
Lemma synthesized_error_is_not_error_shaped :
  exists (f : DispatchFn) (r : Response),
    lookup_dispatch (RestApp.routes Scenario.boom_app) "" "GET" = Some f
    /\ f (Scenario.get_request "/") = Return r
    /\ status r = 500%Z
    /\ body r = BodyJson (JObj [("error", JStr "Internal Server Error");
                                ("message", JStr "boom")])
    /\ ~ Claimed.error_shaped (body r).
Proof.
  eexists. eexists. split; [rewrite lookup_routes; reflexivity|].
  split; [reflexivity|]. split; [reflexivity|]. split; [reflexivity|].
  intros (message & code & details & H). discriminate H.
Qed.

(** When the thrown value is [null], reading [error.message] in the [catch]
    block throws in turn, and the dispatch function rejects. *)
Example dispatch_rejects_on_thrown_null :
  (fun f : DispatchFn => f (Scenario.get_request "/"))
    <$> lookup_dispatch (RestApp.routes Scenario.throw_null_app) "" "GET"
  = Some (Throw (TypeError "cannot read properties of null or undefined")).
Proof. rewrite lookup_routes. reflexivity. Qed.

(** ** The flattened middleware view *)
Section MiddlewareView.
Import RestApp.

(** Induction on applications, through their mounts. *)
Lemma Rest_mounts_ind (P : Rest -> Prop) :
  (forall rs ms mts s, Forall (fun mt => P (snd mt)) mts -> P (MkRest rs ms mts s)) ->
  forall app, P app.
Proof.
  intros step. fix IH 1. intros [rs ms mts s]. apply step.
  induction mts as [|[path child] mts IHmts]; constructor.
  - apply IH.
  - exact IHmts.
Qed.

Lemma middlewares_unfold (app : Rest) :
  middlewares app
  = imap own_middleware_entry (own_middlewares app)
    ++ flat_map
         (fun mt => map (mounted_middleware_entry (length (own_middlewares app)) (fst mt))
                        (middlewares (snd mt)))
         (mounts app).
Proof.
  destruct app as [rs ms mts s]. simpl. f_equal.
  rewrite length_imap.
  induction mts as [|[path child] mts IH]; simpl; [reflexivity|]. now rewrite IH.
Qed.

Lemma lookup_flat_map_block {A B} (f : A -> list B) (l : list A) k x j y :
  l !! k = Some x ->
  f x !! j = Some y ->
  flat_map f l !! (sum_list_with (fun a => length (f a)) (take k l) + j)%nat = Some y.
Proof.
  revert k. induction l as [|a l IH]; intros k Hk Hj; [destruct k; discriminate|].
  destruct k as [|k]; simpl in *.
  - injection Hk as ->. now apply lookup_app_l_Some.
  - rewrite <- Nat.add_assoc, lookup_app_r by lia.
    replace (length (f a) + _ - length (f a))%nat
      with (sum_list_with (fun a => length (f a)) (take k l) + j)%nat by lia.
    now apply IH.
Qed.

(** Ordinals are never negative. *)
Lemma middlewares_order_nonneg (app : Rest) :
  forall e, In e (middlewares app) -> (0 <= fm_order e)%Z.
Proof.
  induction app as [rs ms mts s IH] using Rest_mounts_ind.
  intros e. rewrite middlewares_unfold. simpl. rewrite in_app_iff. intros [Hown|Hmounted].
  - apply list_elem_of_In, list_elem_of_lookup in Hown as [i Hi].
    rewrite list_lookup_imap in Hi.
    destruct (ms !! i); [|discriminate]. injection Hi as <-. simpl. lia.
  - apply in_flat_map in Hmounted as ([path child] & Hmt & He). simpl in He.
    apply in_map_iff in He as (e0 & <- & He0).
    rewrite Forall_forall in IH.
    assert ((path, child) ∈ mts) as Hmt' by now apply list_elem_of_In.
    specialize (IH _ Hmt' e0 He0). simpl in *. lia.
Qed.

(** The layout of the flattened view: the application's own middlewares
    first, then one block for each mount, in the order of the mount calls. *)
Lemma middlewares_layout (app : Rest) :
  (forall i m,
      own_middlewares app !! i = Some m ->
      middlewares app !! i = Some (own_middleware_entry i m)
      /\ fm_order (own_middleware_entry i m) = Z.of_nat i)
  /\ (forall k path child j e,
         mounts app !! k = Some (path, child) ->
         middlewares child !! j = Some e ->
         let e' := mounted_middleware_entry (length (own_middlewares app)) path e in
         middlewares app !! (block_start app k + j)%nat = Some e'
         /\ fm_order e' = (Z.of_nat (length (own_middlewares app)) + fm_order e)%Z
         /\ forall i m, own_middlewares app !! i = Some m ->
                        (fm_order (own_middleware_entry i m) < fm_order e')%Z)
  /\ (forall k k' path child,
         (k < k')%nat ->
         mounts app !! k = Some (path, child) ->
         (block_start app k + length (middlewares child) <= block_start app k')%nat).
Proof.
  split; [|split].
  - intros i m Hi. split; [|reflexivity].
    rewrite middlewares_unfold.
    apply lookup_app_l_Some. rewrite list_lookup_imap, Hi. reflexivity.
  - intros k path child j e Hk Hj e'. split; [|split].
    + rewrite middlewares_unfold. unfold block_start.
      rewrite <- Nat.add_assoc, lookup_app_r by (rewrite length_imap; lia).
      rewrite length_imap.
      replace (length (own_middlewares app) + _ - length (own_middlewares app))%nat
        with (sum_list_with (fun mt => length (middlewares (snd mt))) (take k (mounts app))
              + j)%nat by lia.
      assert (forall l : list (string * Rest),
                 sum_list_with (fun mt => length (middlewares (snd mt))) l
                 = sum_list_with
                     (fun mt => length (map (mounted_middleware_entry
                                               (length (own_middlewares app)) (fst mt))
                                            (middlewares (snd mt)))) l) as ->.
      { induction l as [|mt l IHl]; simpl; [reflexivity|].
        now rewrite length_map, IHl. }
      apply (lookup_flat_map_block
               (fun mt => map (mounted_middleware_entry
                                 (length (own_middlewares app)) (fst mt))
                              (middlewares (snd mt)))
               (mounts app) k (path, child) j e' Hk).
      simpl. rewrite list_lookup_fmap, Hj. reflexivity.
    + reflexivity.
    + intros i m Hi. simpl.
      apply lookup_lt_Some in Hi.
      assert (0 <= fm_order e)%Z.
      { apply (middlewares_order_nonneg child).
        apply list_elem_of_In, list_elem_of_lookup. eauto. }
      lia.
  - intros k k' path child Hlt Hk. unfold block_start.
    assert (take k' (mounts app)
            = take k (mounts app) ++ (path, child) :: drop (S k) (take k' (mounts app)))
      as ->.
    { rewrite <- (take_drop_middle (take k' (mounts app)) k (path, child)) at 1.
      - rewrite take_take. f_equal. f_equal. lia.
      - rewrite lookup_take_lt by lia. exact Hk. }
    rewrite sum_list_with_app. simpl. lia.
Qed.

End MiddlewareView.

(** C7, where it fails: the first child's second middleware gets ordinal 1
    and the second child's first middleware gets ordinal 0, so the ordinals
    of siblings do not follow the order of the mount calls, and for the route
    [/y] the tie-break on ordinals puts the middleware of the child mounted
    later in front of the one of the child mounted earlier. *)
Lemma sibling_ordinals_are_inverted :
  ~ sibling_ordinals_follow_mounts Scenario.siblings_app
  /\ map (fun e => (fm_path e, fm_order e)) (RestApp.middlewares Scenario.siblings_app)
     = [("/x", 0%Z); ("/y", 1%Z); ("/y", 0%Z)]
  /\ RestApp.middlewaresOf Scenario.siblings_app "/y"
     = [mounted_middleware_entry 0 "/"
          (own_middleware_entry 0 {| mw_path := "/y"; mw_handler := Scenario.pass |});
        mounted_middleware_entry 0 "/"
          (own_middleware_entry 1 {| mw_path := "/y"; mw_handler := Scenario.pass |})].
Proof.
  split; [|split; reflexivity].
  intros H.
  specialize (H 0%nat 1%nat "/" Scenario.first_child "/" Scenario.second_child
                (own_middleware_entry 1 {| mw_path := "/y"; mw_handler := Scenario.pass |})
                (own_middleware_entry 0 {| mw_path := "/y"; mw_handler := Scenario.pass |})).
  simpl in H.
  assert (1 <= 0)%Z as Habs; [|lia].
  apply H; auto; lia.
Qed.

(** ** Regular expressions: derivatives decide the language *)
Section RegexLanguage.
Import Regex.

Lemma eps_inv s : re_lang ReEps s -> s = "".
Proof. intros H. now inversion H. Qed.

Lemma void_inv s : ~ re_lang ReVoid s.
Proof. intros H. inversion H. Qed.

Lemma char_inv cs s :
  re_lang (ReChar cs) s -> exists c, s = String c "" /\ cs_mem cs c = true.
Proof. intros H. inversion H; subst. eauto. Qed.

Lemma cat_inv r1 r2 s :
  re_lang (ReCat r1 r2) s ->
  exists s1 s2, s = s1 +:+ s2 /\ re_lang r1 s1 /\ re_lang r2 s2.
Proof. intros H. inversion H; subst. eauto. Qed.

Lemma alt_inv r1 r2 s : re_lang (ReAlt r1 r2) s -> re_lang r1 s \/ re_lang r2 s.
Proof. intros H. inversion H; subst; auto. Qed.

Lemma nullable_lang (r : Re) : nullable r = true <-> re_lang r "".
Proof.
  induction r as [| |cs|r1 IH1 r2 IH2|r1 IH1 r2 IH2|r IH]; simpl.
  - split; [discriminate|]. intros H. now apply void_inv in H.
  - split; [constructor|reflexivity].
  - split; [discriminate|]. intros H. apply char_inv in H as (c & Hc & _). discriminate.
  - rewrite andb_true_iff, IH1, IH2. split.
    + intros [H1 H2]. apply (lang_cat r1 r2 "" "" H1 H2).
    + intros H. apply cat_inv in H as (s1 & s2 & Heq & H1 & H2).
      symmetry in Heq. apply append_eq_nil in Heq as [-> ->]. auto.
  - rewrite orb_true_iff, IH1, IH2. split.
    + intros [H|H]; [now apply lang_alt_l|now apply lang_alt_r].
    + apply alt_inv.
  - split; [constructor|reflexivity].
Qed.

Lemma star_cons_inv (r : Re) c s :
  re_lang (ReStar r) (String c s) ->
  exists s1 s2, s = s1 +:+ s2 /\ re_lang r (String c s1) /\ re_lang (ReStar r) s2.
Proof.
  intros H. remember (ReStar r) as r' eqn:Hr. remember (String c s) as t eqn:Ht.
  revert Hr c s Ht.
  induction H as [| | | | | |r0 s1 s2 H1 _ H2 IH2]; intros Hr d u Ht; try discriminate.
  injection Hr as ->.
  apply append_eq_cons in Ht as [[-> ->]|(s1' & -> & ->)].
  - now apply IH2.
  - eauto.
Qed.

Lemma deriv_lang (r : Re) c s : re_lang (deriv c r) s <-> re_lang r (String c s).
Proof.
  revert s. induction r as [| |cs|r1 IH1 r2 IH2|r1 IH1 r2 IH2|r IH]; intros s; simpl.
  - split; intros H; now apply void_inv in H.
  - split; intros H; [now apply void_inv in H|apply eps_inv in H; discriminate].
  - destruct (cs_mem cs c) eqn:Hmem; split; intros H.
    + apply eps_inv in H as ->. now constructor.
    + apply char_inv in H as (d & [= -> ->] & _). constructor.
    + now apply void_inv in H.
    + apply char_inv in H as (d & [= -> ->] & Hd). congruence.
  - assert (re_lang (ReCat (deriv c r1) r2) s ->
            re_lang (ReCat r1 r2) (String c s)) as Hleft.
    { intros H. apply cat_inv in H as (s1 & s2 & -> & H1 & H2).
      apply IH1 in H1. apply (lang_cat r1 r2 (String c s1) s2 H1 H2). }
    assert (re_lang (ReCat r1 r2) (String c s) ->
            re_lang (ReCat (deriv c r1) r2) s \/ (re_lang r1 "" /\ re_lang (deriv c r2) s))
      as Hright.
    { intros H. apply cat_inv in H as (s1 & s2 & Heq & H1 & H2).
      symmetry in Heq. apply append_eq_cons in Heq as [[-> ->]|(s1' & -> & ->)].
      - right. split; [assumption|now apply IH2].
      - left. apply lang_cat; [now apply IH1|assumption]. }
    destruct (nullable r1) eqn:Hnull; split; intros H.
    + apply alt_inv in H as [H|H]; [now apply Hleft|].
      apply nullable_lang in Hnull.
      apply (lang_cat r1 r2 "" (String c s) Hnull). now apply IH2.
    + destruct (Hright H) as [H'|[_ H']]; [now apply lang_alt_l|now apply lang_alt_r].
    + now apply Hleft.
    + destruct (Hright H) as [H'|[H' _]]; [assumption|].
      apply nullable_lang in H'. congruence.
  - split; intros H; apply alt_inv in H as [H|H].
    + apply lang_alt_l. now apply IH1.
    + apply lang_alt_r. now apply IH2.
    + apply lang_alt_l. now apply IH1.
    + apply lang_alt_r. now apply IH2.
  - split; intros H.
    + apply cat_inv in H as (s1 & s2 & -> & H1 & H2).
      apply IH in H1. apply (lang_star_more r (String c s1) s2 H1 H2).
    + apply star_cons_inv in H as (s1 & s2 & -> & H1 & H2).
      apply lang_cat; [now apply IH|assumption].
Qed.

Lemma re_matches_lang (r : Re) (s : string) : re_matches r s = true <-> re_lang r s.
Proof.
  revert r. induction s as [|c s IH]; intros r; simpl.
  - apply nullable_lang.
  - rewrite IH. apply deriv_lang.
Qed.

Lemma star_char_lang cs (s : string) :
  re_lang (ReStar (ReChar cs)) s <-> Claimed.all_chars (cs_mem cs) s = true.
Proof.
  split.
  - induction s as [|c s IH]; intros H; [reflexivity|].
    apply star_cons_inv in H as (s1 & s2 & -> & H1 & H2).
    apply char_inv in H1 as (d & [= -> ->] & Hd). simpl.
    rewrite Hd. now apply IH.
  - induction s as [|c s IH]; simpl; intros H; [constructor|].
    apply andb_prop in H as [Hc Hs].
    apply (lang_star_more (ReChar cs) (String c "") s); [now constructor|now apply IH].
Qed.

(** One or more characters of a class. *)
Lemma plus_char_lang cs (s : string) :
  re_lang (re_plus (ReChar cs)) s <-> s <> "" /\ Claimed.all_chars (cs_mem cs) s = true.
Proof.
  unfold re_plus. split.
  - intros H. apply cat_inv in H as (s1 & s2 & -> & H1 & H2).
    apply char_inv in H1 as (c & -> & Hc). simpl. split; [discriminate|].
    apply star_char_lang in H2. now rewrite Hc, H2.
  - intros [Hne Hall]. destruct s as [|c s]; [contradiction|].
    simpl in Hall. apply andb_prop in Hall as [Hc Hs].
    apply (lang_cat (ReChar cs) (ReStar (ReChar cs)) (String c "") s);
      [now constructor|now apply star_char_lang].
Qed.

End RegexLanguage.

(** ** From a middleware path to its expression *)
Section PatternRefinement.
Import JsString Regex Claimed.

Lemma syntax_char_cases c :
  is_syntax_char c = true ->
  In c ["."; "*"; "+"; "?"; "^"; "$"; "{"; "}"; "("; ")"; "|"; "["; "]"; "\"]%char.
Proof.
  unfold is_syntax_char. rewrite existsb_exists. intros (d & Hd & Heq).
  apply Ascii.eqb_eq in Heq. now subst.
Qed.

Lemma syntax_not_word c : is_syntax_char c = true -> is_word c = false.
Proof.
  intros H. apply syntax_char_cases in H. simpl in H.
  repeat (destruct H as [<-|H]; [reflexivity|]). contradiction.
Qed.

Lemma syntax_not_colon c : is_syntax_char c = true -> is_colon c = false.
Proof.
  intros H. apply syntax_char_cases in H. simpl in H.
  repeat (destruct H as [<-|H]; [reflexivity|]). contradiction.
Qed.

Lemma star_is_syntax c : is_star c = true -> c = "*"%char /\ is_syntax_char c = true.
Proof. unfold is_star. intros H. apply Ascii.eqb_eq in H. now subst. Qed.

Lemma colon_not_syntax c : is_colon c = true -> c = ":"%char /\ is_syntax_char c = false.
Proof. unfold is_colon. intros H. apply Ascii.eqb_eq in H. now subst. Qed.

Lemma backslash_is_syntax c : is_syntax_char c = false -> is_backslash c = false.
Proof.
  intros H. unfold is_backslash. destruct (Ascii.eqb_spec c "\"); [|reflexivity].
  subst. discriminate.
Qed.

Lemma not_syntax_not_star c : is_syntax_char c = false -> is_star c = false.
Proof.
  intros H. destruct (is_star c) eqn:E; [|reflexivity].
  apply star_is_syntax in E as [_ E]. congruence.
Qed.

(** After the first pass no star begins the text. *)
Lemma escape_syntax_head s : starts_with is_star (escape_syntax s) = false.
Proof.
  destruct s as [|c r]; simpl; [reflexivity|].
  destruct (is_syntax_char c) eqn:E; simpl; [reflexivity|].
  now apply not_syntax_not_star.
Qed.

Lemma replace_wildcards_cons c s :
  starts_with is_star s = false ->
  replace_wildcards (String c s) = String c (replace_wildcards s).
Proof.
  destruct s as [|d s]; simpl; [reflexivity|].
  intros ->. now rewrite andb_false_r.
Qed.

(** The second pass after the first, one character of the path at a time. *)
Lemma replace_wildcards_escape c r :
  replace_wildcards (escape_syntax (String c r))
  = (if is_star c then ".+" else render_token (TLit c))
    +:+ replace_wildcards (escape_syntax r).
Proof.
  pose proof (escape_syntax_head r) as Hhead.
  cbn [escape_syntax render_token].
  destruct (is_syntax_char c) eqn:Hsyn.
  - destruct (is_star c) eqn:Hstar.
    + apply star_is_syntax in Hstar as [-> _]. reflexivity.
    + change (replace_wildcards (String "\" (String c (escape_syntax r))))
        with (if is_backslash "\" && is_star c
              then String "." (String "+" (replace_wildcards (escape_syntax r)))
              else String "\" (replace_wildcards (String c (escape_syntax r)))).
      rewrite Hstar, andb_false_r, replace_wildcards_cons by exact Hhead.
      reflexivity.
  - rewrite (not_syntax_not_star c Hsyn), replace_wildcards_cons by exact Hhead.
    reflexivity.
Qed.

Lemma starts_with_word_passes r :
  starts_with is_word (replace_wildcards (escape_syntax r)) = starts_with is_word r.
Proof.
  destruct r as [|d r]; [reflexivity|].
  rewrite replace_wildcards_escape. cbn [render_token].
  destruct (is_star d) eqn:Hstar.
  - apply star_is_syntax in Hstar as [-> _]. reflexivity.
  - destruct (is_syntax_char d) eqn:Hsyn; simpl; [|reflexivity].
    symmetry. now apply syntax_not_word.
Qed.

(** The three passes write the parts of the path one after the other. *)
Lemma replace_params_passes skipping s :
  replace_params skipping (replace_wildcards (escape_syntax s))
  = render (tokens_go skipping s).
Proof.
  revert skipping. induction s as [|c r IH]; intros skipping; [reflexivity|].
  rewrite replace_wildcards_escape. cbn [tokens_go render_token].
  destruct (skipping && is_word c) eqn:Hskip.
  - apply andb_prop in Hskip as [-> Hword].
    assert (is_syntax_char c = false) as Hsyn.
    { destruct (is_syntax_char c) eqn:E; [|reflexivity].
      apply syntax_not_word in E. congruence. }
    rewrite (not_syntax_not_star c Hsyn), Hsyn. simpl.
    rewrite Hword. simpl. apply IH.
  - destruct (is_colon c && starts_with is_word r) eqn:Hparam.
    + apply andb_prop in Hparam as [Hcolon Hnext].
      apply colon_not_syntax in Hcolon as [-> Hsyn]. simpl.
      rewrite andb_false_r. simpl.
      rewrite starts_with_word_passes, Hnext. simpl. now rewrite IH.
    + destruct (is_star c) eqn:Hstar.
      * apply star_is_syntax in Hstar as [-> _]. simpl.
        rewrite andb_false_r. simpl. now rewrite IH.
      * destruct (is_syntax_char c) eqn:Hsyn; simpl.
        -- rewrite andb_false_r. simpl.
           rewrite (syntax_not_colon c Hsyn). simpl. now rewrite Hsyn, IH.
        -- rewrite Hskip, starts_with_word_passes, Hparam. simpl. now rewrite Hsyn, IH.
Qed.

Lemma regexPattern_render path : regexPattern path = render (tokens path).
Proof. apply replace_params_passes. Qed.

End PatternRefinement.

(** ** Compiling the expression of a path *)
Section Compile.
Import JsString Regex Claimed.

Lemma prefix_append (p s : string) : String.prefix p (p +:+ s) = true.
Proof.
  induction p as [|a p IH]; simpl.
  - now destruct s.
  - destruct (ascii_dec a a) as [_|Hne]; [exact IH|contradiction].
Qed.

Lemma prefix_head_differs a p c s :
  a <> c -> String.prefix (String a p) (String c s) = false.
Proof. intros Hne. simpl. destruct (ascii_dec a c); [contradiction|reflexivity]. Qed.

Lemma not_syntax_differs c d :
  is_syntax_char c = false -> is_syntax_char d = true -> d <> c.
Proof. intros Hc Hd ->. congruence. Qed.

(** One part of the path, in front of what follows it. *)
Lemma parse_units_token (t : Token) (rest : string) :
  parse_units 0 (render_token t +:+ rest) = ReCat (re_of_token t) <$> parse_units 0 rest.
Proof.
  destruct t as [c| |]; cbn [render_token re_of_token].
  - destruct (is_syntax_char c) eqn:Hsyn.
    + change (String "\" (String c "") +:+ rest) with (String "\" (String c rest)).
      cbn [parse_units].
      rewrite !prefix_head_differs by discriminate.
      change (is_backslash "\") with true. cbv iota. now rewrite Hsyn.
    + change (String c "" +:+ rest) with (String c rest).
      cbn [parse_units].
      rewrite !prefix_head_differs by (apply not_syntax_differs; [exact Hsyn|reflexivity]).
      rewrite (backslash_is_syntax c Hsyn).
      assert (Ascii.eqb c "$" = false) as ->.
      { destruct (Ascii.eqb_spec c "$"); [subst; discriminate|reflexivity]. }
      now rewrite Hsyn.
  - change (".+" +:+ rest) with (String "." (String "+" rest)).
    cbn [parse_units].
    rewrite !prefix_head_differs by discriminate.
    change (String "." (String "+" rest)) with (".+" +:+ rest).
    now rewrite prefix_append.
  - change ("([^/]+)" +:+ rest)
      with (String "(" (String "[" (String "^" (String "/" (String "]"
              (String "+" (String ")" rest))))))).
    cbn [parse_units].
    change (String "(" (String "[" (String "^" (String "/" (String "]"
              (String "+" (String ")" rest)))))))
      with ("([^/]+)" +:+ rest).
    now rewrite prefix_append.
Qed.

Lemma parse_units_render (ts : list Token) (rest : string) :
  parse_units 0 (render ts +:+ rest) = re_of_tokens ts <$> parse_units 0 rest.
Proof.
  induction ts as [|t ts IH]; cbn [render re_of_tokens].
  - simpl. now destruct (parse_units 0 rest).
  - rewrite append_assoc, parse_units_token, IH.
    now destruct (parse_units 0 rest).
Qed.

(** [new RegExp] accepts both expressions of every path. *)
Lemma compile_exact path :
  compile ("^" +:+ regexPattern path +:+ "$") = Some (re_of_tokens (tokens path) ReEps).
Proof.
  rewrite regexPattern_render.
  change ("^" +:+ render (tokens path) +:+ "$")
    with (String "^" (render (tokens path) +:+ "$")).
  cbn [compile]. change (Ascii.eqb "^" "^") with true. cbv iota.
  now rewrite parse_units_render.
Qed.

Lemma compile_prefix path :
  compile ("^" +:+ regexPattern path +:+ "(/.*)?$")
  = Some (re_of_tokens (tokens path) (ReCat re_below ReEps)).
Proof.
  rewrite regexPattern_render.
  change ("^" +:+ render (tokens path) +:+ "(/.*)?$")
    with (String "^" (render (tokens path) +:+ "(/.*)?$")).
  cbn [compile]. change (Ascii.eqb "^" "^") with true. cbv iota.
  now rewrite parse_units_render.
Qed.

(** The language of the expression of the parts, in front of [tail]. *)
Lemma re_of_tokens_lang (ts : list Token) (tail : Re) (s : string) :
  re_lang (re_of_tokens ts tail) s
  <-> exists q rest, s = q +:+ rest /\ resolves ts q /\ re_lang tail rest.
Proof.
  revert s. induction ts as [|t ts IH]; intros s; cbn [re_of_tokens].
  - split.
    + intros H. exists "", s. repeat split; [constructor|assumption].
    + intros (q & rest & -> & Hq & Hrest). inversion Hq; subst. exact Hrest.
  - split.
    + intros H. apply cat_inv in H as (s1 & s2 & -> & H1 & H2).
      apply IH in H2 as (q & rest & -> & Hq & Hrest).
      destruct t as [c| |]; cbn [re_of_token] in H1.
      * apply char_inv in H1 as (d & -> & Hd). simpl in Hd.
        apply Ascii.eqb_eq in Hd as ->.
        exists (String c q), rest. repeat split; [now constructor|assumption].
      * apply plus_char_lang in H1 as [Hne Hall].
        exists (s1 +:+ q), rest. rewrite append_assoc.
        repeat split; [now constructor|assumption].
      * apply plus_char_lang in H1 as [Hne Hall].
        exists (s1 +:+ q), rest. rewrite append_assoc.
        repeat split; [now constructor|assumption].
    + intros (q & rest & -> & Hq & Hrest).
      inversion Hq as [|c ts' q' Hq'|ts' w q' Hne Hall Hq'|ts' w q' Hne Hall Hq']; subst;
        cbn [re_of_token].
      * apply (lang_cat (ReChar (CsLit c)) _ (String c "") (q' +:+ rest)).
        -- constructor. simpl. apply Ascii.eqb_refl.
        -- apply IH. eauto.
      * rewrite append_assoc. apply lang_cat.
        -- apply plus_char_lang. auto.
        -- apply IH. eauto.
      * rewrite append_assoc. apply lang_cat.
        -- apply plus_char_lang. auto.
        -- apply IH. eauto.
Qed.

Lemma re_below_lang (rest : string) : re_lang (ReCat re_below ReEps) rest <-> below rest.
Proof.
  unfold re_below, re_opt, below. split.
  - intros H. apply cat_inv in H as (s1 & s2 & -> & H1 & H2).
    apply eps_inv in H2 as ->. rewrite append_nil_r.
    apply alt_inv in H1 as [H1|H1].
    + right. apply cat_inv in H1 as (t1 & t2 & -> & Ht1 & Ht2).
      apply char_inv in Ht1 as (d & -> & Hd). simpl in Hd.
      apply Ascii.eqb_eq in Hd as ->.
      apply star_char_lang in Ht2. simpl. eauto.
    + left. now apply eps_inv in H1.
  - intros [->|(r & -> & Hr)].
    + apply (lang_cat _ ReEps "" ""); [apply lang_alt_r|]; constructor.
    + rewrite <- (append_nil_r (String "/" r)).
      apply lang_cat; [|constructor]. apply lang_alt_l.
      apply (lang_cat (ReChar (CsLit "/")) _ (String "/" "") r).
      * now constructor.
      * now apply star_char_lang.
Qed.

End Compile.

(** ** Which middlewares apply to a path *)
Section Applies.
Import RestApp Claimed.

Lemma test_exact path p :
  Regex.test ("^" +:+ Regex.regexPattern path +:+ "$") p = true
  <-> resolves (tokens path) p.
Proof.
  unfold Regex.test. rewrite compile_exact, re_matches_lang, re_of_tokens_lang. split.
  - intros (q & rest & -> & Hq & Hrest). apply eps_inv in Hrest as ->.
    now rewrite append_nil_r.
  - intros H. exists p, "". rewrite append_nil_r. repeat split; [assumption|constructor].
Qed.

Lemma test_prefix path p :
  Regex.test ("^" +:+ Regex.regexPattern path +:+ "(/.*)?$") p = true
  <-> exists q rest, p = q +:+ rest /\ resolves (tokens path) q /\ below rest.
Proof.
  unfold Regex.test. rewrite compile_prefix, re_matches_lang, re_of_tokens_lang.
  split; intros (q & rest & Hp & Hq & Hrest); exists q, rest;
    (repeat split; [assumption|assumption|now apply re_below_lang]).
Qed.

(** C4, as the code has it.  The pattern [*] alone applies to every path.
    Any other pattern applies to a path exactly when the path is the pattern
    with its parameters and wildcards resolved, followed by nothing or by a
    slash and a rest without line terminator; a wildcard resolves to one or
    more characters, slashes included, and a parameter to one or more
    characters other than a slash. *)
Theorem applies_iff (pattern path : string) :
  applies pattern path = true
  <-> pattern = "*"
      \/ exists q rest, path = q +:+ rest /\ resolves (tokens pattern) q /\ below rest.
Proof.
  unfold applies.
  destruct (String.eqb_spec pattern "*") as [->|Hne].
  { split; [now left|reflexivity]. }
  cbv zeta.
  destruct (Regex.test ("^" +:+ Regex.regexPattern pattern +:+ "$") path) eqn:Hexact.
  - split; [|reflexivity]. intros _. right.
    apply test_exact in Hexact. exists path, "". rewrite append_nil_r.
    repeat split; [assumption|now left].
  - rewrite test_prefix. split; [now right|].
    intros [Hstar|H]; [contradiction|exact H].
Qed.

End Applies.

(** C4, where it fails: the wildcard of [/api/*] needs at least one
    character, so the middleware applies neither to [/api/], whose remainder
    after [/api/] is empty, nor to its normal form [/api]; it applies as soon
    as the remainder is not empty, further segments included. *)
Lemma wildcard_needs_a_character :
  RestApp.applies "/api/*" "/api/" = false
  /\ RestApp.applies "/api/*" "/api" = false
  /\ normalizePath "/api/" = "/api"
  /\ RestApp.applies "/api/*" "/api/users" = true
  /\ RestApp.applies "/api/*" "/api/users/42/posts" = true.
Proof. repeat split; reflexivity. Qed.

Lemma applies_iff_witness : RestApp.applies "/users/:id" "/users/42/posts" = true.
Proof.
  apply (proj2 (applies_iff "/users/:id" "/users/42/posts")).
  right. exists "/users/42", "/posts". split; [reflexivity|]. split.
  - change (Claimed.tokens "/users/:id")
      with [Claimed.TLit "/"; Claimed.TLit "u"; Claimed.TLit "s"; Claimed.TLit "e";
            Claimed.TLit "r"; Claimed.TLit "s"; Claimed.TLit "/"; Claimed.TParam].
    do 7 constructor.
    apply (Claimed.resolves_param [] "42" "").
    + discriminate.
    + reflexivity.
    + constructor.
  - right. exists "posts". split; reflexivity.
Defined.

(** ** Specificity order and the chain *)
Section Chain.
Import RestApp Claimed.

(** The comparison function is negative exactly on the pairs that the six
    criteria order strictly. *)
Lemma compare_negative (a b : FlatMiddleware) :
  (compare a b < 0)%Z <-> more_specific a b.
Proof.
  unfold compare, more_specific, specificity_key.
  destruct (String.eqb_spec (fm_path a) "*") as [Ha|Ha].
  { split; [lia|]. intros [Hn _]. contradiction. }
  destruct (String.eqb_spec (fm_path b) "*") as [Hb|Hb].
  { split; [auto|lia]. }
  cbv zeta. simpl lex_lt.
  repeat match goal with
         | |- context [Z.eqb ?x ?y] => destruct (Z.eqb_spec x y); simpl negb; cbv iota
         end;
    (split; [intros H; split; [assumption|right; lia]
            |intros [_ [H|H]]; [contradiction|lia]]).
Qed.

Lemma more_specific_asym a b : more_specific a b -> ~ more_specific b a.
Proof.
  unfold more_specific, specificity_key. simpl lex_lt.
  intros [Ha [Hb|Hab]] [Hb' [Ha'|Hba]]; try contradiction. lia.
Qed.

Lemma more_specific_trans a b c :
  more_specific a b -> more_specific b c -> more_specific a c.
Proof.
  unfold more_specific, specificity_key. simpl lex_lt.
  intros [Ha [Hb|Hab]] [Hb' [Hc|Hbc]]; try contradiction; split; auto.
  right. lia.
Qed.

Lemma sort_insert_Permutation {A} (cmp : A -> A -> Z) x l :
  sort_insert cmp x l ≡ₚ x :: l.
Proof.
  induction l as [|y l IH]; simpl; [reflexivity|].
  destruct (cmp x y <? 0)%Z; [reflexivity|].
  rewrite IH. apply Permutation_swap.
Qed.

Lemma sort_Permutation {A} (cmp : A -> A -> Z) (l : list A) :
  sort cmp l ≡ₚ l.
Proof.
  unfold sort.
  assert (forall acc, fold_left (fun sorted x => sort_insert cmp x sorted) l acc ≡ₚ acc ++ l)
    as H.
  { induction l as [|x l IH]; intros acc; simpl.
    - now rewrite app_nil_r.
    - rewrite IH, sort_insert_Permutation.
      rewrite (Permutation_middle acc l x). reflexivity. }
  apply (H []).
Qed.

Lemma sort_insert_in_order x l :
  in_specificity_order l -> in_specificity_order (sort_insert compare x l).
Proof.
  unfold in_specificity_order.
  induction l as [|y l IH]; intros Hsorted; simpl.
  - constructor; [constructor|constructor].
  - apply StronglySorted_inv in Hsorted as [Hl Hy].
    destruct (Z.ltb_spec (compare x y) 0) as [Hlt|Hge].
    + apply compare_negative in Hlt.
      constructor; [constructor; assumption|].
      constructor.
      * now apply more_specific_asym.
      * rewrite Forall_forall in Hy |- *. intros e He Hex.
        apply (Hy e He). now apply (more_specific_trans e x y).
    + constructor; [now apply IH|].
      rewrite (sort_insert_Permutation compare x l).
      constructor; [|assumption].
      intros Hxy. apply compare_negative in Hxy. lia.
Qed.

Lemma sort_in_order (l : list FlatMiddleware) :
  in_specificity_order (sort compare l).
Proof.
  unfold sort.
  assert (forall acc, in_specificity_order acc ->
                      in_specificity_order
                        (fold_left (fun sorted x => sort_insert compare x sorted) l acc))
    as H.
  { induction l as [|x l IH]; intros acc Hacc; simpl; [assumption|].
    apply IH. now apply sort_insert_in_order. }
  apply H. constructor.
Qed.

Lemma in_specificity_order_lookup l i j a b :
  in_specificity_order l ->
  l !! i = Some a -> l !! j = Some b -> (i < j)%nat -> ~ more_specific b a.
Proof.
  unfold in_specificity_order. intros Hsorted. revert i j.
  induction Hsorted as [|x l Hl IH Hx]; intros i j Hi Hj Hlt; [destruct i; discriminate|].
  destruct j as [|j]; [lia|]. simpl in Hj.
  destruct i as [|i]; simpl in Hi.
  - injection Hi as ->. rewrite Forall_forall in Hx. apply Hx.
    apply list_elem_of_lookup. eauto.
  - apply (IH i j); [assumption|assumption|lia].
Qed.

Lemma onion_app wrappers wrappers' handler :
  onion (wrappers ++ wrappers') handler = onion wrappers (onion wrappers' handler).
Proof.
  induction wrappers as [|w wrappers IH]; simpl; [reflexivity|]. now rewrite IH.
Qed.

(** The loop wraps from the last handler of the array to the first. *)
Lemma chain_loop_take handlers i next :
  (i <= length handlers)%nat ->
  chain_loop handlers i next = onion (take i handlers) next.
Proof.
  revert next. induction i as [|i IH]; intros next Hi.
  - reflexivity.
  - destruct (lookup_lt_is_Some_2 handlers i ltac:(lia)) as [h Hh].
    cbn [chain_loop]. unfold MiddlewareHandler in *. rewrite Hh, IH by lia.
    rewrite (take_S_r handlers i h Hh), onion_app. reflexivity.
Qed.

Lemma chain_loop_onion handlers next :
  chain_loop handlers (length handlers) next = onion handlers next.
Proof. rewrite chain_loop_take by lia. now rewrite firstn_all. Qed.

(** What a chain of [around] middlewares does: the [pre] parts run from the
    outermost to the innermost, then the handler, then the [post] parts from
    the innermost to the outermost. *)
Lemma onion_around (parts : list ((Ctx.Context -> Ctx.Context) * (Ctx.Context -> Ctx.Context)))
    (handler : RestHandler) (context : Ctx.Context) :
  onion (map (fun p => around (fst p) (snd p)) parts) handler context
  = (foldr (fun p c => snd p c)
       (fst (handler (fold_left (fun c p => fst p c) parts context))) parts,
     snd (handler (fold_left (fun c p => fst p c) parts context))).
Proof.
  revert context. induction parts as [|[pre post] parts IH]; intros context; simpl.
  - now destruct (handler context).
  - unfold around at 1. rewrite IH. reflexivity.
Qed.

(** C2.  The chain of a route is the onion of the applicable middlewares
    taken from the last of the sorted list to the first: the last one, the
    least specific, is the outermost wrapper and the first one, the most
    specific, receives the route handler as its [next].  The sorted list holds
    exactly the applicable middlewares, none of its elements is strictly more
    specific than an element before it, and every entry with the pattern [*]
    comes after every entry with another pattern. *)
Theorem chain_is_onion (app : Rest) (route : FlatRoute) :
  let sorted := middlewaresOf app (fr_path route) in
  chain app route
  = onion (map (fun m => Middleware_handler (fm_middleware m)) (reverse sorted))
          (Route_handler (fr_route route))
  /\ sorted ≡ₚ List.filter (fun m => applies (fm_path m) (fr_path route)) (middlewares app)
  /\ (forall i j a b,
         sorted !! i = Some a -> sorted !! j = Some b -> (i < j)%nat ->
         ~ more_specific b a)
  /\ (forall i j a b,
         sorted !! i = Some a -> sorted !! j = Some b ->
         fm_path a = "*" -> fm_path b <> "*" -> (j < i)%nat).
Proof.
  intros sorted.
  assert (in_specificity_order sorted) as Hsorted by apply sort_in_order.
  split; [|split; [|split]].
  - unfold chain. fold sorted. rewrite chain_loop_onion.
    now rewrite <- fmap_reverse.
  - apply sort_Permutation.
  - intros i j a b. now apply in_specificity_order_lookup.
  - intros i j a b Hi Hj Ha Hb.
    destruct (Nat.lt_trichotomy i j) as [Hlt|[->|Hgt]]; [|congruence|assumption].
    exfalso. apply (in_specificity_order_lookup sorted i j a b Hsorted Hi Hj Hlt).
    split; [assumption|now left].
Qed.

End Chain.

Lemma chain_is_onion_witness :
  RestApp.chain Scenario.logged_app (own_entry Scenario.logged_route)
  = Claimed.onion [Scenario.logging "outer"; Scenario.logging "inner"]
                  (Route_handler Scenario.logged_route).
Proof.
  apply (proj1 (chain_is_onion Scenario.logged_app (own_entry Scenario.logged_route))).
Defined.

(** With [*] and [/users/*] registered and the route [GET /users/1], the
    parts run in the order outer before, inner before, handler, inner after,
    outer after. *)
Example logged_app_order :
  Ctx.get "log" JNull
    (fst (RestApp.chain Scenario.logged_app (own_entry Scenario.logged_route)
            (RestApp.new_Context (Scenario.get_request "/users/1") Scenario.logged_app)))
  = JStr "<outer<innerhandler>inner>outer".
Proof. vm_compute. reflexivity. Qed.

(** ** The flattened middleware view under the sort *)
Section SortedView.
Import RestApp Claimed.

Lemma same_rank_more_specific e x z y :
  same_rank e x = true -> same_rank e z = true ->
  more_specific x y -> more_specific z y.
Proof.
  unfold same_rank, more_specific.
  destruct (String.eqb_spec (fm_path e) "*") as [_|_].
  - intros Hx%String.eqb_eq _ [Hn _]. contradiction.
  - intros [Hx Hkx]%andb_prop [Hz Hkz]%andb_prop [_ Hless].
    apply negb_true_iff, String.eqb_neq in Hz.
    apply bool_decide_eq_true in Hkx. apply bool_decide_eq_true in Hkz.
    split; [exact Hz|]. now rewrite <- Hkz, Hkx.
Qed.

Lemma filter_nothing {A} (f : A -> bool) (l : list A) :
  (forall z, In z l -> f z = false) -> List.filter f l = [].
Proof.
  induction l as [|y l IH]; intros Hall; simpl; [reflexivity|].
  rewrite (Hall y) by now left. apply IH. intros z Hz. apply Hall. now right.
Qed.

(** Inserting an element leaves the elements of its rank in front of it. *)
Lemma filter_sort_insert e x l :
  in_specificity_order l ->
  List.filter (same_rank e) (sort_insert compare x l)
  = List.filter (same_rank e) l ++ (if same_rank e x then [x] else []).
Proof.
  unfold in_specificity_order.
  induction l as [|y l IH]; intros Hsorted; [reflexivity|].
  apply StronglySorted_inv in Hsorted as [Hl Hy]. simpl sort_insert.
  destruct (Z.ltb_spec (compare x y) 0) as [Hlt|Hge].
  - apply compare_negative in Hlt.
    destruct (same_rank e x) eqn:Hx.
    + assert (List.filter (same_rank e) (y :: l) = []) as Hnone.
      { apply filter_nothing. intros z Hz.
        destruct (same_rank e z) eqn:Hez; [exfalso|reflexivity].
        pose proof (same_rank_more_specific e x z y Hx Hez Hlt) as Hzy.
        destruct Hz as [<-|Hz].
        - now apply (more_specific_asym y y).
        - rewrite Forall_forall in Hy. apply (Hy z); [|exact Hzy].
          now apply list_elem_of_In. }
      change (List.filter (same_rank e) (x :: y :: l))
        with (if same_rank e x then x :: List.filter (same_rank e) (y :: l)
              else List.filter (same_rank e) (y :: l)).
      now rewrite Hx, Hnone.
    + change (List.filter (same_rank e) (x :: y :: l))
        with (if same_rank e x then x :: List.filter (same_rank e) (y :: l)
              else List.filter (same_rank e) (y :: l)).
      now rewrite Hx, app_nil_r.
  - change (List.filter (same_rank e) (y :: sort_insert compare x l))
      with (if same_rank e y then y :: List.filter (same_rank e) (sort_insert compare x l)
            else List.filter (same_rank e) (sort_insert compare x l)).
    rewrite (IH Hl). simpl. now destruct (same_rank e y).
Qed.

(** The sort is stable: the entries of one rank stay in the order they have
    in the list that is sorted. *)
Lemma filter_sort e (l : list FlatMiddleware) :
  List.filter (same_rank e) (sort compare l) = List.filter (same_rank e) l.
Proof.
  unfold sort.
  assert (forall acc, in_specificity_order acc ->
            List.filter (same_rank e)
              (fold_left (fun sorted x => sort_insert compare x sorted) l acc)
            = List.filter (same_rank e) acc ++ List.filter (same_rank e) l) as H.
  { induction l as [|x l IH]; intros acc Hacc; simpl; [now rewrite app_nil_r|].
    rewrite (IH _ (sort_insert_in_order x acc Hacc)), filter_sort_insert by exact Hacc.
    rewrite <- app_assoc. now destruct (same_rank e x). }
  apply (H []). constructor.
Qed.

(** C7, as the code has it.  In the flattened view the application's own
    middlewares come first, each at its index and with its index as ordinal;
    the entries of the mount number [k] follow in one block, in the order of
    the child's own view, each with the ordinal it has in the child plus the
    number of the parent's own middlewares, so that it is larger than every
    ordinal of the parent's own; the blocks follow each other in the order of
    the mount calls; and in the sorted list of the middlewares that apply to
    a path, the entries that no criterion tells apart, equal ordinals
    included, stand in the order they have in the view. *)
Theorem middlewares_view (app : Rest) :
  (forall i m,
      own_middlewares app !! i = Some m ->
      middlewares app !! i = Some (own_middleware_entry i m)
      /\ fm_order (own_middleware_entry i m) = Z.of_nat i)
  /\ (forall k path child j e,
         mounts app !! k = Some (path, child) ->
         middlewares child !! j = Some e ->
         let e' := mounted_middleware_entry (length (own_middlewares app)) path e in
         middlewares app !! (block_start app k + j)%nat = Some e'
         /\ fm_order e' = (Z.of_nat (length (own_middlewares app)) + fm_order e)%Z
         /\ forall i m, own_middlewares app !! i = Some m ->
                        (fm_order (own_middleware_entry i m) < fm_order e')%Z)
  /\ (forall k k' path child,
         (k < k')%nat ->
         mounts app !! k = Some (path, child) ->
         (block_start app k + length (middlewares child) <= block_start app k')%nat)
  /\ (forall path e,
         List.filter (same_rank e) (middlewaresOf app path)
         = List.filter (same_rank e)
             (List.filter (fun m => applies (fm_path m) path) (middlewares app))).
Proof.
  destruct (middlewares_layout app) as (Hown & Hmounted & Hblocks).
  split; [exact Hown|]. split; [exact Hmounted|]. split; [exact Hblocks|].
  intros path e. unfold middlewaresOf. apply filter_sort.
Qed.

End SortedView.

Lemma middlewares_view_witness :
  RestApp.middlewares Scenario.siblings_app !! (block_start Scenario.siblings_app 1 + 0)%nat
  = Some (mounted_middleware_entry 0 "/"
            (own_middleware_entry 0 {| mw_path := "/y"; mw_handler := Scenario.pass |})).
Proof.
  apply (proj1 (proj2 (middlewares_view Scenario.siblings_app))
           1%nat "/" Scenario.second_child 0%nat
           (own_middleware_entry 0 {| mw_path := "/y"; mw_handler := Scenario.pass |})).
  - reflexivity.
  - reflexivity.
Defined.

(** Two siblings whose middlewares get the same ordinal: the one of the
    child mounted first stays first in the sorted list, and so is the inner
    one of the two. *)
Example tied_siblings_keep_view_order :
  map (fun e => (fm_path e, fm_order e)) (RestApp.middlewares Scenario.tied_siblings_app)
  = [("/y", 0%Z); ("/y", 0%Z)]
  /\ RestApp.middlewaresOf Scenario.tied_siblings_app "/y"
     = RestApp.middlewares Scenario.tied_siblings_app
  /\ Ctx.get "log" JNull
       (fst (RestApp.chain Scenario.tied_siblings_app
               (own_entry {| route_method := GET; route_path := "/y";
                             route_handler := Scenario.say "y" |})
               (RestApp.new_Context (Scenario.get_request "/y")
                  Scenario.tied_siblings_app)))
     = JStr "<b<a>a>b".
Proof. repeat split; vm_compute; reflexivity. Qed.

(** * Further properties *)

(** ** Normalisation and trailing slashes *)
Section TrailingSlash.
Import JsString Claimed Setup.

Lemma strip_trailing_slash_append (x : string) : strip_trailing_slash (x +:+ "/") = x.
Proof.
  induction x as [|c x IH]; [reflexivity|].
  change (String c x +:+ "/") with (String c (x +:+ "/")).
  cbn [strip_trailing_slash]. rewrite IH.
  destruct x; reflexivity.
Qed.

Lemma ends_with_slash_cons c d r :
  ends_with_slash (String c (String d r)) = ends_with_slash (String d r).
Proof. reflexivity. Qed.

Lemma strip_trailing_slash_id (x : string) :
  ends_with_slash x = false -> strip_trailing_slash x = x.
Proof.
  induction x as [|c x IH]; [reflexivity|].
  destruct x as [|d r]; [simpl; now intros ->|].
  rewrite ends_with_slash_cons. intros H.
  change (strip_trailing_slash (String c (String d r)))
    with (String c (strip_trailing_slash (String d r))).
  now rewrite IH.
Qed.

Lemma replace_double_slash_append_slash (p : string) :
  ends_with_slash p = false ->
  replace_double_slash (p +:+ "/") = replace_double_slash p +:+ "/"
  /\ ends_with_slash (replace_double_slash p) = false.
Proof.
  induction p as [|c|c d r IHr IHdr] using string_pair_ind; intros Hend.
  - split; reflexivity.
  - simpl in Hend. split; [|exact Hend].
    change (String c "" +:+ "/") with (String c (String "/" "")).
    rewrite replace_double_slash_cons, Hend. reflexivity.
  - rewrite ends_with_slash_cons in Hend.
    change (String c (String d r) +:+ "/") with (String c (String d (r +:+ "/"))).
    rewrite !replace_double_slash_cons.
    destruct (is_slash c && is_slash d) eqn:Hboth.
    + apply andb_prop in Hboth as [_ Hd].
      assert (ends_with_slash r = false) as Hr.
      { destruct r as [|e r']; [simpl in Hend; congruence|exact Hend]. }
      destruct (IHr Hr) as [IH1 IH2]. rewrite IH1. split; [reflexivity|].
      destruct (replace_double_slash r) as [|x t] eqn:E; [|exact IH2].
      destruct r as [|e r']; [simpl in Hend; congruence|].
      destruct r' as [|e' r'']; [discriminate E|].
      rewrite replace_double_slash_cons in E. destruct (is_slash e && is_slash e'); discriminate E.
    + destruct (IHdr Hend) as [IH1 IH2].
      change (String d (r +:+ "/")) with (String d r +:+ "/"). rewrite IH1.
      split; [reflexivity|].
      destruct (replace_double_slash (String d r)) as [|x t] eqn:E; [|exact IH2].
      destruct r as [|e r']; [discriminate E|].
      rewrite replace_double_slash_cons in E. destruct (is_slash d && is_slash e); discriminate E.
Qed.

(** X1.  On a path without three slashes in a row, normalising a second
    time changes nothing, for the normalisation of the routes and for the
    one of the middlewares. *)
Theorem normalisation_idempotent (p : string) :
  no_triple_slash p = true ->
  route_path_of (route_path_of p) = route_path_of p
  /\ normalizePath (normalizePath p) = normalizePath p.
Proof.
  intros H. split; [now apply route_path_of_idempotent|now apply normalizePath_idempotent].
Qed.

Lemma normalisation_idempotent_witness :
  route_path_of (route_path_of "/api//users/") = route_path_of "/api//users/"
  /\ normalizePath (normalizePath "/api//users/") = normalizePath "/api//users/".
Proof. apply (normalisation_idempotent "/api//users/"). reflexivity. Defined.

(** X2.  A path that does not end with a slash and the same path with one
    slash added normalise to the same text, so both spellings of a route meet
    under one key of the table and of the middleware view; and the
    normalisation of the middlewares never gives the empty path. *)
Theorem trailing_slash_is_dropped (p : string) :
  ends_with_slash p = false ->
  route_path_of (p +:+ "/") = route_path_of p
  /\ normalizePath (p +:+ "/") = normalizePath p
  /\ normalizePath p <> "".
Proof.
  intros Hend.
  destruct (replace_double_slash_append_slash p Hend) as [Happ Hend'].
  assert (route_path_of (p +:+ "/") = route_path_of p) as Hroute.
  { unfold route_path_of. rewrite Happ, strip_trailing_slash_append.
    symmetry. now apply strip_trailing_slash_id. }
  split; [exact Hroute|]. unfold route_path_of in Hroute. unfold normalizePath.
  rewrite Hroute. split; [reflexivity|].
  destruct (strip_trailing_slash (replace_double_slash p)); discriminate.
Qed.

Lemma trailing_slash_is_dropped_witness :
  route_path_of ("/users/42" +:+ "/") = route_path_of "/users/42"
  /\ normalizePath ("/users/42" +:+ "/") = normalizePath "/users/42"
  /\ normalizePath "/users/42" <> "".
Proof. apply (trailing_slash_is_dropped "/users/42"). reflexivity. Defined.

End TrailingSlash.

(** ** Setting up: what the calls keep *)
Section SetupFacts.
Import RestApp Setup.

(** X3.  Whatever calls of [get], [post], ..., [use], [mount] and the
    service setter are made on a new application, in whatever order and
    whether or not some of them throw, the application's own table never
    holds two routes with the same method and the same path text, nor a
    route with an empty path. *)
Theorem own_routes_stay_unique (calls : list Call) :
  let app := after_all calls new_Rest in
  NoDup (map route_key (own_routes app))
  /\ Forall (fun r => route_path r <> "") (own_routes app).
Proof.
  unfold after_all.
  assert (forall app,
             NoDup (map route_key (own_routes app))
             /\ Forall (fun r => route_path r <> "") (own_routes app) ->
             NoDup (map route_key
                      (own_routes (fold_left (fun app call => after call app) calls app)))
             /\ Forall (fun r => route_path r <> "")
                  (own_routes (fold_left (fun app call => after call app) calls app)))
    as Hkeep.
  { induction calls as [|call calls IH]; intros app Happ; [exact Happ|].
    simpl. apply IH. destruct Happ as [Hnodup Hpaths].
    destruct (after_own_routes call app) as [->|(r & -> & Hpath & Hfresh)]; [auto|].
    split.
    - rewrite map_app. apply NoDup_app. split; [exact Hnodup|]. split.
      + intros k Hk Hin. apply list_elem_of_singleton in Hin as ->.
        apply Hfresh. now apply list_elem_of_In.
      + simpl. apply NoDup_singleton.
    - apply Forall_app. split; [exact Hpaths|]. now constructor. }
  apply Hkeep. split; constructor.
Qed.

(** X4.  When no flattened route has a path that names a member of
    [Object.prototype], the table has a dispatch function for a path and a
    method that name no such member exactly when some flattened route has
    this path and this method. *)
Theorem table_domain (app : Rest) (path method : string) :
  forallb (fun route => Built.plain_name (fr_path route)) (getRoutes app) = true ->
  Built.plain_name path = true ->
  Built.plain_name method = true ->
  is_Some (lookup_dispatch (routes app) path method)
  <-> exists route, In route (getRoutes app)
                    /\ fr_path route = path /\ fr_method route = method.
Proof.
  intros _ _ _. rewrite lookup_routes. split.
  - intros [f Hf]. destruct (find _ _) as [route|] eqn:E; [|discriminate].
    apply find_some in E as [Hin Hentry]. apply in_rev in Hin.
    apply is_entry_for_true in Hentry. eauto.
  - intros (route & Hin & Hp & Hm).
    destruct (find _ _) as [r|] eqn:E; [eexists; reflexivity|].
    apply in_rev in Hin. pose proof (find_none _ _ E route Hin) as Hnone.
    assert (is_entry_for path method route = true) by now apply is_entry_for_true.
    congruence.
Qed.

(** X5.  A route that comes from a mount takes the place of a route of the
    application itself with the same path and method: whenever a mounted
    entry has the path and the method, the table holds the dispatch function
    of a mounted entry. *)
Theorem mounted_route_shadows_own (app : Rest) (path method : string) entry :
  In entry (mounted_routes app) ->
  fr_path entry = path -> fr_method entry = method ->
  exists winner,
    In winner (mounted_routes app)
    /\ fr_path winner = path /\ fr_method winner = method
    /\ lookup_dispatch (routes app) path method = Some (dispatch app (chain app winner)).
Proof.
  intros Hin Hp Hm. rewrite lookup_routes, getRoutes_unfold.
  fold (mounted_routes app). rewrite rev_app_distr, find_append.
  destruct (find (is_entry_for path method) (rev (mounted_routes app))) as [w|] eqn:E.
  - apply find_some in E as [Hw Hentry]. apply in_rev in Hw.
    apply is_entry_for_true in Hentry as [Hwp Hwm].
    exists w. repeat split; assumption.
  - apply in_rev in Hin. pose proof (find_none _ _ E entry Hin) as Hnone.
    assert (is_entry_for path method entry = true) by now apply is_entry_for_true.
    congruence.
Qed.

(** X6.  The service can be set once: while the slot holds a truthy value
    the setter throws and the getter returns that value; otherwise the setter
    stores the value and touches nothing else, after which the getter returns
    it and every further set throws if the value is truthy, while a falsy
    value leaves the service unset. *)
Theorem service_is_set_once (app : Rest) (value : JsVal) :
  if JsObject.truthy (service_slot app)
  then set_service value app = Throw (new_Error "Service already set")
       /\ service app = Return (service_slot app)
  else exists app',
         set_service value app = Return app'
         /\ own_routes app' = own_routes app
         /\ own_middlewares app' = own_middlewares app
         /\ mounts app' = mounts app
         /\ if JsObject.truthy value
            then service app' = Return value
                 /\ forall other, set_service other app'
                                  = Throw (new_Error "Service already set")
            else service app' = Throw (new_Error "Service not set")
                 /\ forall other, exists app'', set_service other app' = Return app''.
Proof.
  destruct app as [rs ms mts s]. unfold service, read_service. simpl.
  destruct (JsObject.truthy s) eqn:Hs; simpl; [auto|].
  eexists. repeat split.
  destruct (JsObject.truthy value) eqn:Hv; unfold service, read_service; simpl;
    rewrite Hv; simpl; split; eauto.
Qed.

(** X7.  Composition of views under [mount]: the flattened routes and the
    flattened middlewares of the application after [mount(path, child)] are
    those before it followed by the child's, prefixed; mounting at [/] is
    mounting with the empty prefix. *)
Theorem mount_appends_views (path : string) (child app : Rest) :
  getRoutes (mount path child app)
  = getRoutes app ++ map (mounted_entry path) (getRoutes child)
  /\ middlewares (mount path child app)
     = middlewares app
       ++ map (mounted_middleware_entry (length (own_middlewares app)) path)
              (middlewares child)
  /\ getRoutes (mount "/" child app) = getRoutes (mount "" child app)
  /\ middlewares (mount "/" child app) = middlewares (mount "" child app).
Proof.
  assert (forall p, middlewares (mount p child app)
                    = middlewares app
                      ++ map (mounted_middleware_entry (length (own_middlewares app)) p)
                             (middlewares child)) as Hmw.
  { intros p. rewrite (middlewares_unfold (mount p child app)), (middlewares_unfold app).
    destruct app as [rs ms mts s]. simpl.
    rewrite flat_map_app. simpl. now rewrite app_nil_r, app_assoc. }
  split; [apply getRoutes_mount|]. split; [apply Hmw|]. split.
  - now rewrite !getRoutes_mount.
  - now rewrite !Hmw.
Qed.

(** X8.  What [use] does to the middleware view: the entries of the
    application's earlier middlewares stay, the new middlewares follow with
    the next ordinals in the order of the paths given, and every entry that
    comes from a mount has its ordinal moved up by the number of paths. *)
Theorem use_renumbers_mounted (paths : list string) handler (app : Rest) :
  let n := length (own_middlewares app) in
  middlewares (use paths handler app)
  = take n (middlewares app)
    ++ imap (fun i path =>
               own_middleware_entry (n + i) {| mw_path := path; mw_handler := handler |})
            paths
    ++ map (shift_order (length paths)) (drop n (middlewares app)).
Proof.
  intros n. rewrite use_spec, middlewares_unfold, (middlewares_unfold app). simpl.
  assert (n = length (imap own_middleware_entry (own_middlewares app))) as Hlen
    by (symmetry; apply length_imap).
  rewrite take_app_length' by exact Hlen. rewrite drop_app_length' by exact Hlen.
  rewrite imap_app, <- app_assoc. f_equal. f_equal.
  - rewrite imap_fmap. apply imap_ext. intros i p _. reflexivity.
  - rewrite length_app, length_map. fold n.
    induction (mounts app) as [|[p c] mts IH]; simpl; [reflexivity|].
    rewrite map_app, IH. f_equal.
    rewrite map_map. apply map_ext. intros e.
    unfold shift_order, mounted_middleware_entry. simpl. f_equal. lia.
Qed.

End SetupFacts.

Lemma table_domain_witness :
  is_Some (lookup_dispatch (RestApp.routes More.not_found_app) "/missing" "GET")
  <-> exists route, In route (RestApp.getRoutes More.not_found_app)
                    /\ fr_path route = "/missing" /\ fr_method route = "GET".
Proof.
  apply (table_domain More.not_found_app "/missing" "GET"); reflexivity.
Defined.

Lemma mounted_route_shadows_own_witness :
  exists winner,
    In winner (Setup.mounted_routes More.shadowed_app)
    /\ fr_path winner = "/x" /\ fr_method winner = "GET"
    /\ lookup_dispatch (RestApp.routes More.shadowed_app) "/x" "GET"
       = Some (RestApp.dispatch More.shadowed_app (RestApp.chain More.shadowed_app winner)).
Proof.
  apply (mounted_route_shadows_own More.shadowed_app "/x" "GET"
           (mounted_entry "/"
              (own_entry {| route_method := GET; route_path := "/x";
                            route_handler := Scenario.say "mounted" |}))).
  - simpl. now left.
  - reflexivity.
  - reflexivity.
Defined.

(** The request [GET /x] is answered by the mounted application. *)
Example shadowed_answer :
  (fun f : DispatchFn => f (Scenario.get_request "/x"))
    <$> lookup_dispatch (RestApp.routes More.shadowed_app) "/x" "GET"
  = Some (Return {| status := 200;
                    headers := [("Content-Type", "text/plain")];
                    body := BodyText "mounted" |}).
Proof. rewrite lookup_routes. reflexivity. Qed.

(** ** Which middlewares apply: consequences *)
Section AppliesFacts.
Import RestApp Claimed Behaviour Setup.

Lemma test_exact_prefix pattern path :
  Regex.test ("^" +:+ Regex.regexPattern pattern +:+ "$") path = true ->
  Regex.test ("^" +:+ Regex.regexPattern pattern +:+ "(/.*)?$") path = true.
Proof.
  intros H. apply test_exact in H. apply test_prefix.
  exists path, "". rewrite append_nil_r. repeat split; [assumption|now left].
Qed.

(** For a pattern other than [*] the second test alone decides. *)
Lemma applies_other pattern path :
  pattern <> "*" -> applies pattern path = Utils.listed pattern path.
Proof.
  intros Hne. unfold applies, Utils.listed.
  destruct (String.eqb_spec pattern "*") as [->|_]; [contradiction|]. cbv zeta.
  destruct (Regex.test ("^" +:+ Regex.regexPattern pattern +:+ "$") path) eqn:E;
    [|reflexivity].
  symmetry. now apply test_exact_prefix.
Qed.

Lemma resolves_nil_inv ts : resolves ts "" -> ts = [].
Proof.
  intros H. remember "" as s eqn:Hs.
  destruct H as [|c ts s H|ts w s Hw Hall H|ts w s Hw Hall H];
    [reflexivity|discriminate| |];
    apply append_eq_nil in Hs as [-> _]; contradiction.
Qed.

Lemma tokens_nil_inv path : tokens path = [] -> path = "".
Proof.
  destruct path as [|c r]; [reflexivity|]. unfold tokens. cbn [tokens_go]. simpl.
  destruct (JsString.is_colon c && JsString.starts_with JsString.is_word r);
    [discriminate|].
  destruct (JsString.is_star c); discriminate.
Qed.

Lemma normalizePath_nonempty p : normalizePath p <> "".
Proof.
  unfold normalizePath.
  destruct (JsString.strip_trailing_slash (JsString.replace_double_slash p)); discriminate.
Qed.

Lemma view_paths_nonempty (app : Rest) e : In e (middlewares app) -> fm_path e <> "".
Proof.
  rewrite middlewares_unfold, in_app_iff. intros [Hown|Hmounted].
  - apply list_elem_of_In, list_elem_of_lookup in Hown as [i Hi].
    rewrite list_lookup_imap in Hi.
    destruct (own_middlewares app !! i); [|discriminate]. injection Hi as <-.
    apply normalizePath_nonempty.
  - apply in_flat_map in Hmounted as (mt & _ & He).
    apply in_map_iff in He as (e0 & <- & _). apply normalizePath_nonempty.
Qed.

Lemma sort_insert_star x (l : list FlatMiddleware) :
  is_star_entry x = true -> sort_insert compare x l = l ++ [x].
Proof.
  intros Hx. induction l as [|y l IH]; simpl; [reflexivity|].
  unfold compare at 1. unfold is_star_entry in Hx. rewrite Hx. simpl. now rewrite IH.
Qed.

Lemma sort_insert_before_stars x (l stars : list FlatMiddleware) :
  is_star_entry x = false ->
  Forall (fun e => is_star_entry e = true) stars ->
  sort_insert compare x (l ++ stars) = sort_insert compare x l ++ stars.
Proof.
  intros Hx Hstars. induction l as [|y l IH]; simpl.
  - destruct Hstars as [|s stars Hs _]; [reflexivity|]. simpl.
    unfold compare. unfold is_star_entry in Hx, Hs. rewrite Hx, Hs. reflexivity.
  - destruct (compare x y <? 0)%Z; [reflexivity|]. now rewrite IH.
Qed.

Lemma sort_splits_stars (l acc stars : list FlatMiddleware) :
  Forall (fun e => is_star_entry e = true) stars ->
  fold_left (fun sorted x => sort_insert compare x sorted) l (acc ++ stars)
  = fold_left (fun sorted x => sort_insert compare x sorted)
      (List.filter (fun e => negb (is_star_entry e)) l) acc
    ++ stars ++ List.filter is_star_entry l.
Proof.
  revert acc stars. induction l as [|x l IH]; intros acc stars Hstars; simpl.
  - now rewrite app_nil_r.
  - destruct (is_star_entry x) eqn:Hx; simpl.
    + rewrite sort_insert_star by exact Hx. rewrite <- app_assoc.
      rewrite IH by (apply Forall_app; split; [exact Hstars|now constructor]).
      now rewrite <- app_assoc.
    + rewrite sort_insert_before_stars by assumption. now apply IH.
Qed.

Lemma middlewaresOf_splits_stars (app : Rest) (path : string) :
  middlewaresOf app path
  = sort compare
      (List.filter (fun e => negb (is_star_entry e))
         (List.filter (fun m => applies (fm_path m) path) (middlewares app)))
    ++ List.filter is_star_entry
         (List.filter (fun m => applies (fm_path m) path) (middlewares app)).
Proof.
  unfold middlewaresOf, sort.
  apply (sort_splits_stars _ [] []). constructor.
Qed.

(** X9.  The entries with the pattern [*] are sorted behind all the others
    and keep among themselves the order of the flattened view; the others are
    sorted among themselves as if the [*] entries were not there. *)
Theorem stars_sort_last (app : Rest) (path : string) :
  let applicable :=
    List.filter (fun m => applies (fm_path m) path) (middlewares app) in
  middlewaresOf app path
  = sort compare (List.filter (fun e => negb (is_star_entry e)) applicable)
    ++ List.filter is_star_entry applicable.
Proof. intros applicable. apply middlewaresOf_splits_stars. Qed.

(** X10.  For the root route, whose flattened path is empty, the
    middlewares that apply are exactly the entries with the pattern [*], in
    the order of the flattened view: no other pattern, [/] included, ever
    applies to it. *)
Theorem root_route_gets_only_stars (app : Rest) :
  middlewaresOf app "" = List.filter is_star_entry (middlewares app)
  /\ applies "/" "" = false.
Proof.
  split; [|reflexivity].
  assert (List.filter (fun m => applies (fm_path m) "") (middlewares app)
          = List.filter is_star_entry (middlewares app)) as Hfilter.
  { apply filter_ext_in. intros e He. unfold is_star_entry.
    destruct (String.eqb_spec (fm_path e) "*") as [Hstar|Hother].
    - unfold applies. now rewrite Hstar.
    - rewrite applies_other by exact Hother. unfold Utils.listed.
      destruct (Regex.test _ "") eqn:E; [|reflexivity].
      apply test_prefix in E as (q & rest & Heq & Hq & _).
      symmetry in Heq. apply append_eq_nil in Heq as [-> _].
      apply resolves_nil_inv, tokens_nil_inv in Hq.
      now apply view_paths_nonempty in He. }
  rewrite middlewaresOf_splits_stars, Hfilter.
  assert (forall l : list FlatMiddleware,
             List.filter (fun e => negb (is_star_entry e)) (List.filter is_star_entry l) = []
             /\ List.filter is_star_entry (List.filter is_star_entry l)
                = List.filter is_star_entry l) as Hl.
  { induction l as [|e l [IH1 IH2]]; [split; reflexivity|]. simpl.
    destruct (is_star_entry e) eqn:E; simpl; rewrite ?E; simpl; [|auto].
    split; [exact IH1|now rewrite IH2]. }
  destruct (Hl (middlewares app)) as [-> ->]. reflexivity.
Qed.

End AppliesFacts.

(** ** Order among middlewares of the same pattern *)
Section SamePattern.
Import RestApp Claimed Behaviour Setup.

Lemma lookup_two_split {A} (l : list A) i j a b :
  l !! i = Some a -> l !! j = Some b -> (i < j)%nat ->
  exists l1 l2 l3, l = l1 ++ a :: l2 ++ b :: l3.
Proof.
  intros Hi Hj Hlt.
  exists (take i l), (take (j - S i) (drop (S i) l)), (drop (S (j - S i)) (drop (S i) l)).
  rewrite <- (take_drop_middle l i a Hi) at 1. f_equal. f_equal.
  apply symmetry, take_drop_middle.
  rewrite lookup_drop. replace (S i + (j - S i))%nat with j by lia. exact Hj.
Qed.

Lemma filter_two_split {A} (f : A -> bool) l1 a l2 b l3 :
  f a = true -> f b = true ->
  List.filter f (l1 ++ a :: l2 ++ b :: l3)
  = List.filter f l1 ++ a :: List.filter f l2 ++ b :: List.filter f l3.
Proof.
  intros Ha Hb. rewrite List.filter_app. simpl. rewrite Ha.
  rewrite List.filter_app. simpl. now rewrite Hb.
Qed.

Lemma strongly_sorted_two {A} (R : A -> A -> Prop) l1 x l2 y l3 :
  StronglySorted R (l1 ++ x :: l2 ++ y :: l3) -> R x y.
Proof.
  induction l1 as [|z l1 IH]; simpl; intros H; apply StronglySorted_inv in H as [Hs Hall].
  - rewrite Forall_forall in Hall. apply Hall.
    apply list_elem_of_In, in_or_app. right. now left.
  - now apply IH.
Qed.

Lemma own_entries_in_view (app : Rest) i m :
  own_middlewares app !! i = Some m ->
  middlewares app !! i = Some (own_middleware_entry i m).
Proof.
  intros Hi. rewrite middlewares_unfold.
  apply lookup_app_l_Some. now rewrite list_lookup_imap, Hi.
Qed.

(** X11.  Of two middlewares that an application registered itself with
    patterns that normalise alike, the one registered first comes first in
    the sorted list of every route they apply to: it is the inner one of the
    two, and the one registered later wraps it. *)
Theorem earlier_registered_is_inner (app : Rest) (path : string) i j mi mj :
  own_middlewares app !! i = Some mi ->
  own_middlewares app !! j = Some mj ->
  (i < j)%nat ->
  normalizePath (mw_path mi) = normalizePath (mw_path mj) ->
  applies (normalizePath (mw_path mi)) path = true ->
  exists before between behind,
    middlewaresOf app path
    = before ++ own_middleware_entry i mi :: between ++ own_middleware_entry j mj :: behind.
Proof.
  intros Hi Hj Hlt Hsame Happ.
  set (ei := own_middleware_entry i mi). set (ej := own_middleware_entry j mj).
  assert (fm_path ei = normalizePath (mw_path mi)) as Hpi by reflexivity.
  assert (fm_path ej = normalizePath (mw_path mi)) as Hpj by (now rewrite Hsame).
  destruct (lookup_two_split (middlewares app) i j ei ej
              (own_entries_in_view app i mi Hi) (own_entries_in_view app j mj Hj) Hlt)
    as (v1 & v2 & v3 & Hview).
  assert (exists l1 l2 l3,
             List.filter (fun m => applies (fm_path m) path) (middlewares app)
             = l1 ++ ei :: l2 ++ ej :: l3) as (l1 & l2 & l3 & Hfilter).
  { rewrite Hview, filter_two_split by (rewrite ?Hpi, ?Hpj; exact Happ). eauto. }
  destruct (is_star_entry ei) eqn:Hstar.
  - assert (is_star_entry ej = true) as Hstar'.
    { unfold is_star_entry in *. now rewrite Hpj, <- Hpi. }
    rewrite middlewaresOf_splits_stars, Hfilter.
    rewrite (filter_two_split is_star_entry l1 ei l2 ej l3 Hstar Hstar').
    eexists (_ ++ _), _, _. now rewrite <- app_assoc.
  - assert (more_specific ei ej) as Hmore.
    { unfold more_specific, specificity_key. rewrite Hpi, Hpj.
      unfold is_star_entry in Hstar. rewrite Hpi in Hstar.
      apply String.eqb_neq in Hstar. split; [exact Hstar|]. right.
      simpl. repeat (right; split; [reflexivity|]). left. lia. }
    assert (ei <> ej) as Hne.
    { intros Heq. apply (f_equal fm_order) in Heq. simpl in Heq. lia. }
    pose proof (sort_in_order
                  (List.filter (fun m => applies (fm_path m) path) (middlewares app)))
      as Hsorted.
    pose proof (sort_Permutation compare
                  (List.filter (fun m => applies (fm_path m) path) (middlewares app)))
      as Hperm.
    fold (middlewaresOf app path) in Hsorted, Hperm. rewrite Hfilter in Hperm.
    assert (ei ∈ middlewaresOf app path) as Hin_i.
    { rewrite Hperm. apply list_elem_of_In, in_or_app. right. now left. }
    apply list_elem_of_split in Hin_i as (a1 & a2 & Hsplit).
    assert (ej ∈ a1 ++ ei :: a2) as Hin_j.
    { rewrite <- Hsplit, Hperm. apply list_elem_of_In, in_or_app. right. right.
      apply in_or_app. right. now left. }
    apply elem_of_app in Hin_j as [Hleft|Hright].
    + exfalso. apply list_elem_of_split in Hleft as (b1 & b2 & ->).
      rewrite Hsplit, <- app_assoc in Hsorted. simpl in Hsorted.
      now apply (strongly_sorted_two _ b1 ej b2 ei a2) in Hsorted.
    + apply elem_of_cons in Hright as [Heq|Hright]; [now symmetry in Heq|].
      apply list_elem_of_split in Hright as (b1 & b2 & ->).
      rewrite Hsplit. eauto.
Qed.

Lemma earlier_registered_is_inner_witness :
  exists before between behind,
    middlewaresOf More.two_globals_app "/ping"
    = before
      ++ own_middleware_entry 0 {| mw_path := "*"; mw_handler := Scenario.logging "first" |}
      :: between
      ++ own_middleware_entry 1 {| mw_path := "*"; mw_handler := Scenario.logging "second" |}
      :: behind.
Proof.
  apply (earlier_registered_is_inner More.two_globals_app "/ping" 0 1
           {| mw_path := "*"; mw_handler := Scenario.logging "first" |}
           {| mw_path := "*"; mw_handler := Scenario.logging "second" |}).
  - reflexivity.
  - reflexivity.
  - lia.
  - reflexivity.
  - reflexivity.
Defined.

(** The global middleware registered second runs around the first. *)
Example two_globals_order :
  Ctx.get "log" JNull
    (fst (chain More.two_globals_app
            (own_entry {| route_method := GET; route_path := "/ping";
                          route_handler := Scenario.say "pong" |})
            (new_Context (Scenario.get_request "/ping") More.two_globals_app)))
  = JStr "<second<first>first>second".
Proof. vm_compute. reflexivity. Qed.

End SamePattern.

(** ** What the chain lets through *)
Section ChainFacts.
Import RestApp Claimed Behaviour Setup.

Lemma chain_unfold (app : Rest) (route : FlatRoute) :
  chain app route
  = onion (map (fun m => Middleware_handler (fm_middleware m))
               (reverse (middlewaresOf app (fr_path route))))
          (Route_handler (fr_route route)).
Proof. unfold chain. rewrite chain_loop_onion. now rewrite <- fmap_reverse. Qed.

Lemma onion_short_circuit before (m : MiddlewareHandler) inner handler handler' :
  ignores_next m ->
  onion (before ++ m :: inner) handler = onion (before ++ m :: inner) handler'.
Proof.
  intros Hm. rewrite !onion_app. f_equal. simpl.
  apply functional_extensionality. intros c. apply Hm.
Qed.

(** X12.  A middleware that applies to a route and whose outcome does not
    depend on its [next] cuts the chain short: the route handler has no part
    in what the chain does, whatever other middlewares apply. *)
Theorem short_circuit_hides_handler (app : Rest) (route route' : FlatRoute) k m :
  fr_path route' = fr_path route ->
  middlewaresOf app (fr_path route) !! k = Some m ->
  ignores_next (mw_handler (fm_middleware m)) ->
  chain app route = chain app route'.
Proof.
  intros Hpath Hk Hm. rewrite !chain_unfold, Hpath.
  assert (m ∈ reverse (middlewaresOf app (fr_path route))) as Hin.
  { apply elem_of_reverse, list_elem_of_lookup. eauto. }
  apply list_elem_of_split in Hin as (l1 & l2 & ->).
  rewrite fmap_app, fmap_cons.
  apply onion_short_circuit. intros c n n'. apply Hm.
Qed.

Lemma short_circuit_hides_handler_witness :
  chain More.guarded_app
    (own_entry {| route_method := GET; route_path := "/api/users";
                  route_handler := Scenario.say "users" |})
  = chain More.guarded_app
      (own_entry {| route_method := GET; route_path := "/api/users";
                    route_handler := Scenario.boom |}).
Proof.
  apply (short_circuit_hides_handler More.guarded_app
           (own_entry {| route_method := GET; route_path := "/api/users";
                         route_handler := Scenario.say "users" |})
           (own_entry {| route_method := GET; route_path := "/api/users";
                         route_handler := Scenario.boom |})
           0%nat
           (own_middleware_entry 1 {| mw_path := "/api/*"; mw_handler := More.deny |})).
  - reflexivity.
  - reflexivity.
  - intros c n n'. reflexivity.
Defined.

(** The request is answered 401 and the outer middleware still runs around
    the one that denies. *)
Example guarded_app_answer :
  (fun f : DispatchFn =>
     match f (Scenario.get_request "/api/users") with
     | Return r => Some (status r)
     | Throw _ => None
     end)
    <$> lookup_dispatch (routes More.guarded_app) "/api/users" "GET"
  = Some (Some 401%Z).
Proof. rewrite lookup_routes. reflexivity. Qed.

(** X13.  When no middleware applies to a route, the chain is the route
    handler itself; and a handler that only returns [c.notFound()], which
    records nothing in the context, is answered by the dispatch function with
    the synthesized 500 response, not with the 404 it returned. *)
Theorem unrecorded_response_is_lost (app : Rest) (route : FlatRoute) :
  middlewaresOf app (fr_path route) = [] ->
  chain app route = Route_handler (fr_route route)
  /\ (route_handler (fr_route route) = not_found_handler ->
      forall request,
        dispatch app (chain app route) request
        = Return (internal_error (JStr "No response set in context"))).
Proof.
  intros Hnone. assert (chain app route = Route_handler (fr_route route)) as Hchain.
  { rewrite chain_unfold, Hnone. reflexivity. }
  split; [exact Hchain|]. intros Hhandler request.
  rewrite Hchain. unfold dispatch, Route_handler. rewrite Hhandler. reflexivity.
Qed.

Lemma unrecorded_response_is_lost_witness :
  dispatch More.not_found_app
    (chain More.not_found_app
       (own_entry {| route_method := GET; route_path := "/missing";
                     route_handler := not_found_handler |}))
    (Scenario.get_request "/missing")
  = Return (internal_error (JStr "No response set in context")).
Proof.
  apply (proj2 (unrecorded_response_is_lost More.not_found_app
                  (own_entry {| route_method := GET; route_path := "/missing";
                                route_handler := not_found_handler |})
                  eq_refl)).
  reflexivity.
Defined.

End ChainFacts.

(** ** Patterns and paths *)
Section PatternFacts.
Import RestApp Claimed Behaviour Setup.

Lemma applies_other_iff pattern path :
  pattern <> "*" ->
  applies pattern path = true
  <-> exists q rest, path = q +:+ rest /\ resolves (tokens pattern) q /\ below rest.
Proof. intros Hne. rewrite applies_other by exact Hne. apply test_prefix. Qed.

Lemma below_extend rest r :
  below rest -> no_line_terminator r = true -> below (rest +:+ String "/" r).
Proof.
  unfold below, no_line_terminator. intros [->|(r0 & -> & Hr0)] Hr; right.
  - exists r. auto.
  - exists (r0 +:+ String "/" r). split; [reflexivity|].
    rewrite all_chars_append, Hr0. simpl. exact Hr.
Qed.

(** X14.  A middleware that applies to a path applies to every path below
    it: to the path followed by a slash and any rest without line
    terminator. *)
Theorem applies_below (pattern path r : string) :
  applies pattern path = true ->
  no_line_terminator r = true ->
  applies pattern (path +:+ String "/" r) = true.
Proof.
  intros Happ Hr. destruct (String.eqb_spec pattern "*") as [->|Hne]; [reflexivity|].
  apply applies_other_iff in Happ as (q & rest & -> & Hq & Hrest); [|exact Hne].
  apply applies_other_iff; [exact Hne|].
  exists q, (rest +:+ String "/" r). rewrite append_assoc.
  repeat split; [assumption|now apply below_extend].
Qed.

Lemma applies_below_witness :
  applies "/users/:id" ("/users/42" +:+ String "/" "posts/7") = true.
Proof. apply (applies_below "/users/:id" "/users/42" "posts/7"); reflexivity. Defined.

Lemma static_tokens_go path :
  forallb (fun t => match t with TLit _ => true | _ => false end) (tokens_go false path)
  = true ->
  forall q, resolves (tokens_go false path) q <-> q = path.
Proof.
  induction path as [|c r IH]; intros Hstatic q.
  - simpl. split; [intros H; now inversion H|intros ->; constructor].
  - cbn [tokens_go] in *. simpl in Hstatic |- *.
    destruct (JsString.is_colon c && JsString.starts_with JsString.is_word r);
      [discriminate|].
    destruct (JsString.is_star c); [discriminate|].
    simpl in Hstatic. specialize (IH Hstatic). split.
    + intros H. inversion H as [|c' ts s Hs| |]; subst. f_equal. now apply IH.
    + intros ->. constructor. now apply IH.
Qed.

(** X15.  A pattern without wildcard and without parameter applies to a
    path exactly when the path is the pattern itself, or the pattern followed
    by a slash and a rest without line terminator. *)
Theorem static_pattern_is_prefix_or_exact (pattern path : string) :
  is_static pattern = true ->
  applies pattern path = true
  <-> path = pattern
      \/ exists r, path = pattern +:+ String "/" r /\ no_line_terminator r = true.
Proof.
  intros Hstatic.
  assert (pattern <> "*") as Hne by (intros ->; discriminate Hstatic).
  rewrite applies_other_iff by exact Hne. unfold is_static, tokens in *. split.
  - intros (q & rest & -> & Hq & Hrest). apply (static_tokens_go _ Hstatic) in Hq as ->.
    destruct Hrest as [->|(r & -> & Hr)]; [left; apply append_nil_r|right; eauto].
  - intros [->|(r & -> & Hr)].
    + exists pattern, "". rewrite append_nil_r.
      repeat split; [now apply static_tokens_go|now left].
    + exists pattern, (String "/" r).
      repeat split; [now apply static_tokens_go|right; eauto].
Qed.

Lemma static_pattern_is_prefix_or_exact_witness :
  applies "/api" "/api/users" = true
  <-> "/api/users" = "/api"
      \/ exists r, "/api/users" = "/api" +:+ String "/" r /\ no_line_terminator r = true.
Proof. apply (static_pattern_is_prefix_or_exact "/api" "/api/users"). reflexivity. Defined.

(** X16.  The listing of [printRoutes] and the dispatch table agree on
    which middlewares belong to a route for every pattern but [*]: a [*]
    middleware is listed only beside a path that is not empty and holds no
    line terminator, so it is missing beside the root route although it runs
    for it. *)
Theorem listing_differs_on_star (pattern path : string) :
  (pattern <> "*" -> Utils.listed pattern path = applies pattern path)
  /\ (Utils.listed "*" path = true <-> path <> "" /\ no_line_terminator path = true)
  /\ applies "*" path = true.
Proof.
  split; [intros Hne; symmetry; now apply applies_other|]. split; [|reflexivity].
  unfold Utils.listed. rewrite test_prefix.
  change (tokens "*") with [TWild]. unfold no_line_terminator. split.
  - intros (q & rest & -> & Hq & Hrest).
    inversion Hq as [| |ts w s Hw Hall Hs|]; subst.
    inversion Hs; subst. rewrite append_nil_r. split.
    + destruct w; [contradiction|discriminate].
    + rewrite all_chars_append, Hall. simpl.
      destruct Hrest as [->|(r & -> & Hr)]; [reflexivity|exact Hr].
  - intros [Hne Hall]. exists path, "". rewrite append_nil_r.
    repeat split; [|now left].
    rewrite <- (append_nil_r path). now constructor; [| |constructor].
Qed.

End PatternFacts.

(** ** Objects built by assignments *)
Section ObjectFacts.
Import JsObject Built Request.

Lemma get_own_set_own_eq k v props : get_own k (set_own k v props) = v.
Proof.
  induction props as [|[k' v'] props IH]; simpl; [now rewrite String.eqb_refl|].
  destruct (String.eqb_spec k k') as [->|Hne]; simpl.
  - now rewrite String.eqb_refl.
  - destruct (String.eqb_spec k k'); [contradiction|exact IH].
Qed.

Lemma get_own_set_own_ne k k' v props :
  k <> k' -> get_own k (set_own k' v props) = get_own k props.
Proof.
  intros Hne. induction props as [|[k0 v0] props IH]; simpl.
  - destruct (String.eqb_spec k k'); [contradiction|reflexivity].
  - destruct (String.eqb_spec k' k0) as [->|Hne']; simpl.
    + destruct (String.eqb_spec k k0); [contradiction|reflexivity].
    + destruct (String.eqb_spec k k0); [reflexivity|exact IH].
Qed.

Lemma get_own_fold_set_own k (entries props : list (string * JsVal)) :
  get_own k (fold_left (fun o kv => set_own (fst kv) (snd kv) o) entries props)
  = default (get_own k props) (last_value k entries).
Proof.
  unfold last_value. revert props.
  induction entries as [|[k' v'] entries IH]; intros props; simpl; [reflexivity|].
  rewrite IH, find_append.
  destruct (find _ (rev entries)) as [kv|]; simpl; [reflexivity|].
  destruct (String.eqb_spec k' k) as [->|Hne]; simpl.
  - apply get_own_set_own_eq.
  - apply get_own_set_own_ne. congruence.
Qed.

Lemma rev_app_rev_app (s a b : string) :
  String.rev_app (String.rev_app s a) b = String.rev_app a (s +:+ b).
Proof.
  revert a. induction s as [|c s IH]; intros a; [reflexivity|].
  simpl. rewrite IH. reflexivity.
Qed.

Lemma split_go_free sep cur s :
  Claimed.all_chars (fun c => negb (Ascii.eqb c sep)) s = true ->
  JsString.split_go sep cur s = [String.rev (String.rev_app s cur)].
Proof.
  revert cur. induction s as [|c s IH]; intros cur Hfree; [reflexivity|].
  simpl in Hfree. apply andb_prop in Hfree as [Hc Hs]. apply negb_true_iff in Hc.
  simpl. rewrite Hc. now apply IH.
Qed.

Lemma split_free sep s :
  Claimed.all_chars (fun c => negb (Ascii.eqb c sep)) s = true ->
  JsString.split sep s = [s].
Proof.
  intros H. unfold JsString.split. rewrite split_go_free by exact H.
  unfold String.rev. rewrite rev_app_rev_app. simpl. now rewrite append_nil_r.
Qed.



Lemma assign_sections_cons k k2 rest v current :
  assign_sections (k :: k2 :: rest) v current
  = if truthy (get_prop current k)
    then child ← assign_sections (k2 :: rest) v (get_prop current k);
         set_prop current k child
    else current' ← set_prop current k (JObj []);
         child ← assign_sections (k2 :: rest) v (JObj []);
         set_prop current' k child.
Proof. reflexivity. Qed.

Lemma assign_entries_flat (entries props : list (string * JsVal)) :
  Forall (fun kv => dot_free (fst kv) = true) entries ->
  assign_entries entries (JObj props)
  = Return (JObj (fold_left (fun o kv => set_own (fst kv) (snd kv) o) entries props)).
Proof.
  intros Hflat. revert props.
  induction Hflat as [|[k v] entries Hk _ IH]; intros props; [reflexivity|].
  simpl in Hk. cbn [assign_entries]. rewrite split_free by exact Hk. simpl.
  apply IH.
Qed.

(** X17.  Form entries whose keys hold no dot (and are not [__proto__])
    never make the loop throw: the object built has, under every key, the
    value of the last entry with that key, and nothing under the other keys. *)
Theorem flat_entries_last_wins (entries : list (string * JsVal)) :
  Forall (fun kv => dot_free (fst kv) = true /\ fst kv <> "__proto__") entries ->
  exists props,
    assign_entries entries (JObj []) = Return (JObj props)
    /\ forall k, get_own k props = default JUndefined (last_value k entries).
Proof.
  intros Hflat. eexists. split.
  - apply assign_entries_flat. eapply Forall_impl; [exact Hflat|]. now intros kv [H _].
  - intros k. now rewrite get_own_fold_set_own.
Qed.

Lemma flat_entries_last_wins_witness :
  exists props,
    assign_entries [("name", JStr "Ada"); ("age", JStr "36"); ("name", JStr "Grace")]
      (JObj [])
    = Return (JObj props)
    /\ forall k, get_own k props
                 = default JUndefined
                     (last_value k [("name", JStr "Ada"); ("age", JStr "36");
                                    ("name", JStr "Grace")]).
Proof.
  apply (flat_entries_last_wins
           [("name", JStr "Ada"); ("age", JStr "36"); ("name", JStr "Grace")]).
  repeat constructor; discriminate.
Defined.



Lemma set_own_twice k v w props : set_own k v (set_own k w props) = set_own k v props.
Proof.
  induction props as [|[k' v'] props IH]; simpl.
  - now rewrite String.eqb_refl.
  - destruct (String.eqb k k') eqn:E; simpl.
    + now rewrite String.eqb_refl.
    + now rewrite E, IH.
Qed.

Lemma assign_sections_step k k2 rest v o o' :
  assign_sections (k :: k2 :: rest) v o = Return o' ->
  exists child child0 props,
    assign_sections (k2 :: rest) v child0 = Return child
    /\ o = JObj props /\ o' = JObj (set_own k child props).
Proof.
  rewrite assign_sections_cons. intros Hassign.
  destruct (truthy (get_prop o k)) eqn:Htruthy.
  - destruct (assign_sections (k2 :: rest) v (get_prop o k)) as [child|e] eqn:E;
      [|discriminate Hassign].
    destruct o as [| | | | |props]; try discriminate Htruthy.
    injection Hassign as <-. eauto 10.
  - destruct o as [| | | | |props]; try discriminate Hassign.
    change (set_prop (JObj props) k (JObj [])) with (Return (JObj (set_own k (JObj []) props)))
      in Hassign.
    change (mbind ?f (Return ?a)) with (f a) in Hassign. cbv beta in Hassign.
    destruct (assign_sections (k2 :: rest) v (JObj [])) as [child|e] eqn:E;
      [|discriminate Hassign].
    injection Hassign as <-. rewrite set_own_twice. eauto 10.
Qed.

Lemma assign_sections_read (sections : list string) (v o o' : JsVal) :
  sections <> [] ->
  assign_sections sections v o = Return o' ->
  get_path sections o' = v
  /\ forall k, Some k <> head sections -> get_prop o' k = get_prop o k.
Proof.
  revert o o'. induction sections as [|k rest IH]; intros o o' Hne Hassign; [contradiction|].
  destruct rest as [|k2 rest].
  - simpl in Hassign. destruct o as [| | | | |props]; try discriminate.
    injection Hassign as <-. simpl. split; [apply get_own_set_own_eq|].
    intros k' Hk'. apply get_own_set_own_ne. congruence.
  - apply assign_sections_step in Hassign as (child & child0 & props & Hchild & -> & ->).
    destruct (IH child0 child ltac:(discriminate) Hchild) as [Hread _].
    split.
    + cbn [get_path]. simpl get_prop. now rewrite get_own_set_own_eq.
    + intros k' Hk'. simpl. apply get_own_set_own_ne. simpl in Hk'. congruence.
Qed.

(** X19.  Whenever the assignments along the sections of a key return, the
    value can be read back along the same sections, and the properties of the
    object other than the first section are as before; on the empty object
    they always return. *)
Theorem dotted_key_round_trip (sections : list string) (v : JsVal) :
  sections <> [] ->
  Forall (fun k => plain_name k = true) sections ->
  (forall o o',
      assign_sections sections v o = Return o' ->
      get_path sections o' = v
      /\ forall k, Some k <> head sections -> get_prop o' k = get_prop o k)
  /\ exists o', assign_sections sections v (JObj []) = Return o'.
Proof.
  intros Hne _. split; [intros o o'; now apply assign_sections_read|].
  clear Hne. induction sections as [|k rest [o' IH]]; [eexists; reflexivity|].
  destruct rest as [|k2 rest]; [eexists; reflexivity|].
  rewrite assign_sections_cons. simpl get_prop. simpl truthy. cbv iota.
  change (set_prop (JObj []) k (JObj [])) with (Return (JObj [(k, JObj [])])).
  change (mbind ?f (Return ?a)) with (f a). cbv beta.
  rewrite IH. eexists. reflexivity.
Qed.

Lemma dotted_key_round_trip_witness :
  (forall o o',
      assign_sections ["user"; "address"; "city"] (JStr "Paris") o = Return o' ->
      get_path ["user"; "address"; "city"] o' = JStr "Paris"
      /\ forall k, Some k <> head ["user"; "address"; "city"] ->
                   get_prop o' k = get_prop o k)
  /\ exists o', assign_sections ["user"; "address"; "city"] (JStr "Paris") (JObj [])
                = Return o'.
Proof.
  apply (dotted_key_round_trip ["user"; "address"; "city"] (JStr "Paris")).
  - discriminate.
  - repeat constructor.
Defined.

End ObjectFacts.

(** ** The error builder of the context *)
Section ContextError.
Import JsObject Built.

Lemma fold_set_own_keeps_head (details : list (string * JsVal)) a b tail :
  exists a' b' tail',
    fold_left (fun o kv => set_own (fst kv) (snd kv) o) details
      (("message", a) :: ("status", b) :: tail)
    = ("message", a') :: ("status", b') :: tail'.
Proof.
  revert a b tail. induction details as [|[k v] details IH]; intros a b tail; simpl.
  - eauto.
  - destruct (String.eqb_spec k "message") as [->|_]; [apply IH|].
    destruct (String.eqb_spec k "status") as [->|_]; apply IH.
Qed.

(** X20.  For a status and options that [Response.json] accepts,
    [error(message, status, details, options)] records the response it
    returns and leaves the store alone; the body always has the shape
    [{error: {message, status, ...}}], where a property of [details] takes
    the place of [message] or [status] if it has that name; the status of the
    response is the one of [options] if it gives one, while the body keeps
    the argument. *)
Theorem error_builder_shape (message : string) (code : Z)
    (details : list (string * JsVal)) (options : ResponseInit) (c : Ctx.Context) :
  Behaviour.error_accepted code options = true ->
  let '(c', r) := Ctx.error message code details options c in
  Ctx.response c' = Some r
  /\ Ctx.state c' = Ctx.state c
  /\ status r = default code (init_status options)
  /\ Behaviour.body_status (status r) = true
  /\ Claimed.error_shaped (body r)
  /\ exists inner,
       body r = BodyJson (JObj [("error", JObj inner)])
       /\ forall k,
            get_own k inner
            = default (get_own k [("message", JStr message); ("status", JNum code)])
                      (last_value k details).
Proof.
  intros Haccepted. apply andb_prop in Haccepted as [Hstatus _].
  unfold Ctx.error. simpl. repeat split.
  - exact Hstatus.
  - destruct (fold_set_own_keeps_head details (JStr message) (JNum code) [])
      as (a & b & tail & Heq).
    exists a, b, tail. now rewrite Heq.
  - eexists. split; [reflexivity|]. intros k. apply get_own_fold_set_own.
Qed.

Lemma error_builder_shape_witness :
  let '(c', r) :=
    Ctx.error "Forbidden" 403 [("reason", JStr "role")]
      {| init_status := None; init_headers := [("X-Trace", "abc")] |}
      (RestApp.new_Context (Scenario.get_request "/admin") Scenario.hello_app) in
  Ctx.response c' = Some r
  /\ Ctx.state c' = Ctx.state (RestApp.new_Context (Scenario.get_request "/admin") Scenario.hello_app)
  /\ status r = 403%Z
  /\ Behaviour.body_status (status r) = true
  /\ Claimed.error_shaped (body r)
  /\ exists inner,
       body r = BodyJson (JObj [("error", JObj inner)])
       /\ forall k,
            get_own k inner
            = default (get_own k [("message", JStr "Forbidden"); ("status", JNum 403)])
                      (last_value k [("reason", JStr "role")]).
Proof.
  apply (error_builder_shape "Forbidden" 403 [("reason", JStr "role")]
           {| init_status := None; init_headers := [("X-Trace", "abc")] |}
           (RestApp.new_Context (Scenario.get_request "/admin") Scenario.hello_app)).
  reflexivity.
Defined.

End ContextError.

(** ** Body parsing: where it cannot throw *)

Lemma parse_resolves_outside_forms_witness :
  exists v,
    Request.parse (fun _ => [])
      {| Request.raw_method := "POST"; Request.raw_pathname := "/notes";
         Request.raw_content_type := Some "Text/Plain; charset=utf-8";
         Request.raw_json := Throw (new_Error "Unexpected token");
         Request.raw_text := Throw (TypeError "body already used");
         Request.raw_formData := Throw (TypeError "not a form") |}
    = Return v.
Proof.
  apply (parse_resolves_outside_forms (fun _ => [])
           {| Request.raw_method := "POST"; Request.raw_pathname := "/notes";
              Request.raw_content_type := Some "Text/Plain; charset=utf-8";
              Request.raw_json := Throw (new_Error "Unexpected token");
              Request.raw_text := Throw (TypeError "body already used");
              Request.raw_formData := Throw (TypeError "not a form") |}).
  right. split; reflexivity.
Defined.

(** ** The constructor of [Route] *)

(** X22.  [new Route(method, path, handler)] returns exactly when the method
    is one of the six names and the path is not empty, and the route then
    keeps both; otherwise it throws, and a method that is not one of the six
    is reported before an empty path. *)
Theorem route_constructor_accepts (method path : string) (handler : RestHandler) :
  let names := ["GET"; "POST"; "PUT"; "DELETE"; "PATCH"; "OPTIONS"] in
  match RouteClass.constructor method path handler with
  | Return r =>
      In method names /\ path <> ""
      /\ method_name (route_method r) = method /\ route_path r = path
  | Throw e =>
      (~ In method names /\ e = new_Error ("Invalid HTTP method: " +:+ method))
      \/ (In method names /\ path = "" /\ e = new_Error "Invalid path: ")
  end.
Proof.
  intros names. subst names.
  unfold RouteClass.constructor, RouteClass.method_of_name, new_Route.
  cbn [find method_name].
  repeat match goal with
         | |- context [String.eqb ?a method] =>
             destruct (String.eqb_spec a method) as [<-|?]
         end;
    try (destruct (String.eqb_spec path "") as [->|?];
         [right; repeat split; simpl; tauto
         |repeat split; simpl; tauto]).
  left. split; [|reflexivity]. simpl. intuition congruence.
Qed.

(** ** [schema] *)
Section SchemaProps.
Import JsObject.
Import Schema.
Variable URLSearchParams : string -> list (string * string).

Lemma merged_object parsed (cross : list (string * JsVal)) :
  merged parsed (JObj cross)
  = fold_left (fun o kv => set_own (fst kv) (snd kv) o) cross (merged parsed (JObj [])).
Proof. reflexivity. Qed.

(** X23.  In the object given to the validator a property of [crossData]
    takes the place of the property of the parsed body with the same name,
    and every other property of the body is kept. *)
Theorem cross_data_overrides_body (parsed : JsVal) (cross : list (string * JsVal))
    (k : string) :
  get_own k (merged parsed (JObj cross))
  = default (get_own k (merged parsed (JObj []))) (Built.last_value k cross).
Proof. rewrite merged_object. apply get_own_fold_set_own. Qed.

Lemma indexed_keys n s kv :
  In kv (indexed n s) -> exists j, n <= j /\ fst kv = pretty j.
Proof.
  revert n. induction s as [|c s IH]; intros n Hin; [destruct Hin|].
  destruct Hin as [<-|Hin]; [exists n; split; [lia|reflexivity]|].
  destruct (IH _ Hin) as (j & Hj & Heq). exists j. split; [lia|exact Heq].
Qed.

Lemma get_own_fold_other k (entries props : list (string * JsVal)) :
  (forall kv, In kv entries -> fst kv <> k) ->
  get_own k (fold_left (fun o kv => set_own (fst kv) (snd kv) o) entries props)
  = get_own k props.
Proof.
  revert props. induction entries as [|[k' v'] entries IH]; intros props Hother;
    [reflexivity|].
  simpl. rewrite IH by (intros kv Hin; apply Hother; now right).
  apply get_own_set_own_ne. intros ->. now apply (Hother (k', v')); [left|].
Qed.

Lemma get_own_indexed n i s c props :
  String.get i s = Some c ->
  get_own (pretty (n + i))
    (fold_left (fun o kv => set_own (fst kv) (snd kv) o) (indexed n s) props)
  = JStr (String c "").
Proof.
  revert n i props. induction s as [|a s IH]; intros n i props Hget; [discriminate|].
  destruct i as [|i]; simpl in Hget.
  - injection Hget as ->. simpl indexed. simpl fold_left.
    rewrite get_own_fold_other.
    + replace (n + 0) with n by lia. apply get_own_set_own_eq.
    + intros kv Hin Heq. destruct (indexed_keys _ _ _ Hin) as (j & Hj & Hkey).
      rewrite Hkey in Heq. apply (inj pretty) in Heq. lia.
  - simpl indexed. simpl fold_left.
    replace (n + S i) with (S n + i) by lia. now apply IH.
Qed.

(** X24.  A body read as text is spread like an object: the validator is
    given the characters of the text under their decimal indices. *)
Theorem text_body_is_spread (s : string) (i : nat) (c : ascii) :
  String.get i s = Some c ->
  get_own (pretty i) (merged (JStr s) (JObj [])) = JStr (String c "").
Proof.
  intros Hget. unfold merged, spread_into at 1. simpl fold_left.
  assert (Hne : String.eqb s "" = false) by (destruct s; [discriminate|reflexivity]).
  simpl truthy. rewrite Hne. simpl. apply (get_own_indexed 0 i s c [] Hget).
Qed.

Lemma text_body_is_spread_witness :
  get_own "1" (merged (JStr "hi") (JObj [])) = JStr "i".
Proof. apply (text_body_is_spread "hi" 1 "i"). reflexivity. Defined.

(** X25.  When the validator refuses the merged data, the dispatch function
    of a handler that begins with [schema] answers the recorded 400 error,
    whatever the rest of the handler is; the issues are part of the body
    unless [redact] is set. *)
Theorem schema_failure_answers_400 (validate : JsVal -> SafeParse)
    (options : SchemaOptions) (k : JsVal -> RestHandler) (app : Rest)
    (request : Request.RawRequest) (parsed issues : JsVal) :
  Request.parse URLSearchParams request = Return parsed ->
  validate (JObj (merged parsed (crossData options))) = Failure issues ->
  RestApp.dispatch app (validated URLSearchParams validate options k) request
  = Return {| status := 400;
              headers := [("Content-Type", "application/json")];
              body := BodyJson
                        (JObj [("error",
                                JObj ([("message", JStr "Invalid request data");
                                       ("status", JNum 400)]
                                      ++ if redact options then []
                                         else [("issues", issues)]))]) |}.
Proof.
  intros Hparse Hfail.
  unfold RestApp.dispatch, validated, schema, RestApp.new_Context. simpl Ctx.request.
  rewrite Hparse, Hfail. destruct (redact options); reflexivity.
Qed.

(** X26.  When [parse] throws, [schema] neither validates nor records a
    response: the dispatch function answers the 500 built around the message
    of the thrown value. *)
Theorem schema_parse_failure_is_500 (validate : JsVal -> SafeParse)
    (options : SchemaOptions) (k : JsVal -> RestHandler) (app : Rest)
    (request : Request.RawRequest) (e : JsVal) :
  Request.parse URLSearchParams request = Throw e ->
  RestApp.dispatch app (validated URLSearchParams validate options k) request
  = message ← get_message e; Return (Produced.internal_error message).
Proof.
  intros Hparse.
  unfold RestApp.dispatch, validated, schema, RestApp.new_Context. simpl Ctx.request.
  rewrite Hparse. reflexivity.
Qed.

End SchemaProps.

Lemma schema_failure_answers_400_witness :
  RestApp.dispatch Scenario.hello_app
    (Schema.validated (fun _ => []) (fun _ => Schema.Failure (JStr "name is required"))
       Schema.default_options (fun _ => Scenario.hello))
    (Scenario.get_request "/hello")
  = Return {| status := 400;
              headers := [("Content-Type", "application/json")];
              body := BodyJson
                        (JObj [("error",
                                JObj [("message", JStr "Invalid request data");
                                      ("status", JNum 400);
                                      ("issues", JStr "name is required")])]) |}.
Proof.
  apply (schema_failure_answers_400 (fun _ => [])
           (fun _ => Schema.Failure (JStr "name is required"))
           Schema.default_options (fun _ => Scenario.hello) Scenario.hello_app
           (Scenario.get_request "/hello") JNull (JStr "name is required"));
    reflexivity.
Defined.

Lemma schema_parse_failure_is_500_witness :
  RestApp.dispatch Scenario.hello_app
    (Schema.validated (fun _ => []) (fun v => Schema.Success v)
       Schema.default_options (fun _ => Scenario.hello))
    Scenario.multipart_unreadable
  = Return (Produced.internal_error (JStr "null has no property entries")).
Proof.
  apply (schema_parse_failure_is_500 (fun _ => []) (fun v => Schema.Success v)
           Schema.default_options (fun _ => Scenario.hello) Scenario.hello_app
           Scenario.multipart_unreadable
           (TypeError "null has no property entries")).
  reflexivity.
Defined.

(** ** The checks of the CORS middleware *)
Section CorsProps.
Import Cors.

(** X27.  [isOriginAllowed] answers the origin of the request or, for the
    configured text ["*"] only, the star; a missing or empty origin is never
    allowed. *)
Theorem origin_allowed_result (requestOrigin : option string)
    (allowedOrigin : AllowedOrigin) (result : string) :
  isOriginAllowed requestOrigin allowedOrigin = Some result ->
  exists o,
    requestOrigin = Some o /\ o <> ""
    /\ match allowedOrigin with
       | OriginText s => (s = "*" /\ result = "*") \/ (s = o /\ result = o)
       | OriginArray l => In o l /\ result = o
       | OriginFunction f => f o = true /\ result = o
       | OriginOther => False
       end.
Proof.
  unfold isOriginAllowed. destruct requestOrigin as [o|]; [|discriminate].
  destruct (String.eqb_spec o "") as [->|Hne]; [discriminate|].
  intros H. exists o. split; [reflexivity|]. split; [exact Hne|].
  destruct allowedOrigin as [s|l|f|]; [| | |discriminate].
  - destruct (String.eqb_spec s "*") as [->|?]; [left; now injection H|].
    destruct (String.eqb_spec s o) as [->|?]; [right; now injection H|discriminate].
  - destruct (existsb (String.eqb o) l) eqn:Hex; [|discriminate].
    apply existsb_exists in Hex as (x & Hin & Heq). apply String.eqb_eq in Heq.
    subst x. split; [exact Hin|now injection H].
  - destruct (f o) eqn:Hf; [|discriminate]. split; [reflexivity|now injection H].
Qed.

Lemma origin_allowed_result_witness :
  exists o,
    Some "https://a.example" = Some o /\ o <> ""
    /\ (In o ["https://a.example"; "https://b.example"] /\ "https://a.example" = o).
Proof.
  apply (origin_allowed_result (Some "https://a.example")
           (OriginArray ["https://a.example"; "https://b.example"])
           "https://a.example").
  reflexivity.
Defined.

(** X28.  A request for [OPTIONS] without an [Origin] header, or with an
    empty one, is refused with 403 whatever the configuration allows. *)
Theorem preflight_needs_origin (config : Config)
    (requestedMethod requestedHeaders : option string) :
  preflight_refusal config None requestedMethod requestedHeaders
  = Some ("CORS: Origin not allowed", 403%Z)
  /\ preflight_refusal config (Some "") requestedMethod requestedHeaders
     = Some ("CORS: Origin not allowed", 403%Z).
Proof. split; reflexivity. Qed.

Lemma lower_char_star c : JsString.lower_char c = "*"%char -> c = "*"%char.
Proof.
  destruct c as [[] [] [] [] [] [] [] []]; vm_compute; intros H;
    first [reflexivity | discriminate H].
Qed.

Lemma toLowerCase_star h : JsString.toLowerCase h = "*" -> h = "*".
Proof.
  destruct h as [|c [|c' h]]; simpl; intros H; try discriminate.
  injection H as H. now rewrite (lower_char_star c H).
Qed.

(** X29.  The star of the preset [permissive] is compared as a header name:
    a request for [OPTIONS] that asks for any header other than the star
    itself is refused, with 405 for its method or 403 for its headers. *)
Theorem star_header_is_literal (requestOrigin : string)
    (requestedMethod : option string) (requestedHeaders h : string) :
  requestOrigin <> "" ->
  requestedHeaders <> "" ->
  In h (map trim (JsString.split "," requestedHeaders)) ->
  h <> "*" ->
  exists message code,
    preflight_refusal permissive (Some requestOrigin) requestedMethod (Some requestedHeaders)
    = Some (message, code)
    /\ (code = 405%Z \/ code = 403%Z).
Proof.
  intros Horigin Hasked Hin Hstar. unfold preflight_refusal, isOriginAllowed.
  destruct (String.eqb_spec requestOrigin "") as [|_]; [contradiction|].
  simpl Cors.origin. simpl (String.eqb "*" "*").
  match goal with
  | |- context [if ?b then Some ("CORS: Method not allowed", _) else _] => destruct b
  end; [eauto|].
  destruct (String.eqb_spec requestedHeaders "") as [|_]; [contradiction|].
  destruct (forbiddenHeaders requestedHeaders (allowedHeaders permissive)) eqn:Hf;
    [|eauto].
  exfalso. assert (Hmem : In h (forbiddenHeaders requestedHeaders (allowedHeaders permissive))).
  { unfold forbiddenHeaders. apply filter_In. split; [exact Hin|].
    apply negb_true_iff, not_true_is_false. intros Hex.
    apply existsb_exists in Hex as (a & Ha & Heq).
    destruct Ha as [<-|[]]. apply String.eqb_eq in Heq.
    symmetry in Heq. now apply toLowerCase_star in Heq. }
  rewrite Hf in Hmem. destruct Hmem.
Qed.

Lemma star_header_is_literal_witness :
  exists message code,
    Cors.preflight_refusal Cors.permissive (Some "https://a.example") (Some "POST")
      (Some "Content-Type, X-Token")
    = Some (message, code)
    /\ (code = 405%Z \/ code = 403%Z).
Proof.
  apply (star_header_is_literal "https://a.example" (Some "POST")
           "Content-Type, X-Token" "X-Token").
  - discriminate.
  - discriminate.
  - vm_compute. right. left. reflexivity.
  - discriminate.
Defined.

End CorsProps.
